(** * QuickStage.dev hosting backend: site resolution and archive ingestion

    A shallow embedding of [src/lib/util.js], [src/contentType.js] and the
    upload / serve handlers of [src/index.js], with the properties of the
    specification stated over it.

    Strings are lists of code units.  The embedding covers the code units
    U+0000..U+00FF, one [ascii] each; [JS.toLowerCase] and [JS.trim] are
    the JavaScript operations restricted to that range. *)

From Stdlib Require Import Ascii String List Bool Arith Lia.
From stdpp Require Import gmap strings list fin_maps.
Import ListNotations.

Local Open Scope list_scope.

Abbreviation str := (list ascii).

(** A string literal of the source. *)
Definition lit (s : string) : str := list_ascii_of_string s.

(* ===================================================================== *)
(** ** The JavaScript string operations the source uses                    *)
(* ===================================================================== *)

Module JS.

Definition code (c : ascii) : nat := nat_of_ascii c.

Definition between (lo hi : nat) (c : ascii) : bool :=
  (lo <=? code c) && (code c <=? hi).

(** WhiteSpace and LineTerminator code units below U+0100. *)
Definition isSpace (c : ascii) : bool :=
  between 9 13 c || (code c =? 32) || (code c =? 160).

(** Upper-case letters below U+0100: A-Z, and U+00C0..U+00DE without the
    multiplication sign U+00D7. *)
Definition isUpper (c : ascii) : bool :=
  between 65 90 c || (between 192 222 c && negb (code c =? 215)).

Definition lowerChar (c : ascii) : ascii :=
  if isUpper c then ascii_of_nat (code c + 32) else c.

(** [s.toLowerCase()] *)
Definition toLowerCase (s : str) : str := map lowerChar s.

Fixpoint dropWhile (p : ascii -> bool) (s : str) : str :=
  match s with
  | [] => []
  | c :: t => if p c then dropWhile p t else s
  end.

Definition dropWhileEnd (p : ascii -> bool) (s : str) : str :=
  rev (dropWhile p (rev s)).

(** [s.trim()] *)
Definition trim (s : str) : str := dropWhileEnd isSpace (dropWhile isSpace s).

(** [s.replace(/[C]+/g, r)] for a character class [C]: every maximal run
    of characters of the class becomes the single character [r]. *)
Fixpoint replaceRuns (cls : ascii -> bool) (r : ascii) (s : str) : str :=
  match s with
  | [] => []
  | c :: t =>
      if cls c then
        match t with
        | [] => [r]
        | d :: _ => if cls d then replaceRuns cls r t
                    else r :: replaceRuns cls r t
        end
      else c :: replaceRuns cls r t
  end.

(** [s.replace(/[C]+/, r)], without the [g] flag: the first run only. *)
Fixpoint replaceFirstRun (cls : ascii -> bool) (r : ascii) (s : str) : str :=
  match s with
  | [] => []
  | c :: t => if cls c then r :: dropWhile cls t
              else c :: replaceFirstRun cls r t
  end.

(** [s.replace(/^c|c$/g, "")]: one [c] off the front when there is one,
    then one [c] off the end of what is left when there is one. *)
Definition stripEdges (c : ascii) (s : str) : str :=
  let s1 := match s with
            | d :: t => if Ascii.eqb d c then t else s
            | [] => []
            end in
  match rev s1 with
  | d :: t => if Ascii.eqb d c then rev t else s1
  | [] => []
  end.

(** [s.split(c)] for a one-character separator. *)
Fixpoint split (sep : ascii) (s : str) : list str :=
  match s with
  | [] => [[]]
  | c :: t =>
      if Ascii.eqb c sep then [] :: split sep t
      else match split sep t with
           | w :: ws => (c :: w) :: ws
           | [] => [[c]]
           end
  end.

(** [parts.join(sep)] *)
Fixpoint join (sep : str) (parts : list str) : str :=
  match parts with
  | [] => []
  | w :: ws => match ws with
               | [] => w
               | _ :: _ => w ++ sep ++ join sep ws
               end
  end.

(** [s.startsWith(p)] *)
Fixpoint startsWith (p s : str) : bool :=
  match p, s with
  | [], _ => true
  | _ :: _, [] => false
  | a :: p', b :: s' => Ascii.eqb a b && startsWith p' s'
  end.

(** [s.endsWith(p)] *)
Definition endsWith (p s : str) : bool := startsWith (rev p) (rev s).

(** [s.includes(p)] *)
Fixpoint includes (p s : str) : bool :=
  startsWith p s ||
  match s with
  | [] => false
  | _ :: t => includes p t
  end.

(** [s.slice(0, n)] for [n >= 0]. *)
Definition sliceTo (n : nat) (s : str) : str := firstn n s.

(** [s.slice(0, -n)] for [n > 0]. *)
Definition sliceOffEnd (n : nat) (s : str) : str := firstn (length s - n) s.

(** Strict equality of two strings. *)
Definition eqb (a b : str) : bool := bool_decide (a = b).

(** [xs.includes(s)] on an array of strings. *)
Definition arrayIncludes (xs : list str) (s : str) : bool :=
  existsb (eqb s) xs.

(** Truthiness of a string: the empty string is falsy. *)
Definition truthy (s : str) : bool :=
  match s with [] => false | _ :: _ => true end.

(** [a || b] where [a] may be [undefined] or a string. *)
Definition orElse (a : option str) (b : str) : str :=
  match a with
  | Some s => if truthy s then s else b
  | None => b
  end.

End JS.

(* ===================================================================== *)
(** ** src/lib/util.js                                                     *)
(* ===================================================================== *)

(** The class [[a-z0-9-]]. *)
Definition isSlugChar (c : ascii) : bool :=
  JS.between 97 122 c || JS.between 48 57 c || Ascii.eqb c "-"%char.

Definition slugify (input : str) : str :=
  if negb (JS.truthy input) then []
  else
    JS.sliceTo 63
      (JS.stripEdges "-"%char
         (JS.replaceRuns (Ascii.eqb "-"%char) "-"%char
            (JS.replaceRuns (fun c => negb (isSlugChar c)) "-"%char
               (JS.toLowerCase (JS.trim input))))).

(** The body of the loop of [safeJoinPosix]: [true] when the part is pushed. *)
Definition keepPart (p : str) : bool :=
  if JS.eqb p (lit ".") || JS.eqb p [] then false
  else if JS.eqb p (lit "..") then false
  else true.

Definition safeJoinPosix (prefix rel : str) : str :=
  let joined :=
    JS.replaceRuns (Ascii.eqb "/"%char) "/"%char
      (JS.replaceFirstRun (Ascii.eqb "/"%char) "/"%char (prefix ++ lit "/" ++ rel)) in
  let parts := List.filter JS.truthy (JS.split "/"%char joined) in
  let safe := List.filter keepPart parts in
  JS.join (lit "/") safe.

(* ===================================================================== *)
(** ** src/contentType.js                                                  *)
(* ===================================================================== *)

Section ContentType.

(** [mime.lookup] of the mime-types package, which is not part of the
    repository: the extension table is a parameter; [None] is its
    [false]. *)
Variable mime_lookup : str -> option str.

Definition lookupContentType (path : str) : option str :=
  match mime_lookup path with
  | None => None
  | Some ct =>
      if negb (JS.truthy ct) then None
      else if JS.eqb ct (lit "text/html") then Some (lit "text/html; charset=utf-8")
      else if JS.eqb ct (lit "text/css") then Some (lit "text/css; charset=utf-8")
      else if JS.eqb ct (lit "application/javascript")
           then Some (lit "application/javascript; charset=utf-8")
      else if JS.eqb ct (lit "text/plain") then Some (lit "text/plain; charset=utf-8")
      else if JS.eqb ct (lit "application/json")
           then Some (lit "application/json; charset=utf-8")
      else Some ct
  end.

End ContentType.

(* ===================================================================== *)
(** ** The object store behind [s3.send]                                   *)
(* ===================================================================== *)

(** What a PutObject leaves under a key. *)
Record Object := {
  objBody : str;
  objContentType : option str;
  objCacheControl : option str
}.

Abbreviation Bucket := (gmap str Object).

(** Failures of the store that do not depend on whether the key holds an
    object: each command fails on the keys its predicate selects. *)
Record Faults := {
  getFails : str -> bool;
  readFails : str -> bool;
  putFails : str -> bool;
  headFails : str -> bool
}.

Definition noFaults : Faults :=
  {| getFails := fun _ => false; readFails := fun _ => false;
     putFails := fun _ => false; headFails := fun _ => false |}.

(** What a rejected promise of the client carries. *)
Inductive Exn := NoSuchKey | StoreFailure | StreamFailure.

(** The body of a GetObject output: chunks, and whether reading them
    breaks off. *)
Record Stream := { chunks : list str; broken : bool }.

Record GetObjectOutput := {
  Body : Stream;
  ContentType : option str;
  CacheControl : option str
}.

Section Store.

Variable faults : Faults.

Definition getObject (b : Bucket) (key : str) : Exn + GetObjectOutput :=
  if getFails faults key then inl StoreFailure
  else match b !! key with
       | None => inl NoSuchKey
       | Some o =>
           inr {| Body := {| chunks := [objBody o]; broken := readFails faults key |};
                  ContentType := objContentType o;
                  CacheControl := objCacheControl o |}
       end.

Definition headObject (b : Bucket) (key : str) : Exn + unit :=
  if headFails faults key then inl StoreFailure
  else match b !! key with
       | None => inl NoSuchKey
       | Some _ => inr tt
       end.

Definition putObject (b : Bucket) (key : str) (o : Object) : Exn + Bucket :=
  if putFails faults key then inl StoreFailure
  else inr (<[key := o]> b).

End Store.

(** [streamToBuffer] of src/lib/util.js. *)
Definition streamToBuffer (s : Stream) : Exn + str :=
  if broken s then inl StreamFailure else inr (concat (chunks s)).

(* ===================================================================== *)
(** ** src/index.js: configuration                                         *)
(* ===================================================================== *)

Record Env := {
  env_MAIN_HOSTS : option str;
  env_HOSTING_BASE_DOMAIN : option str;
  env_SPA_FALLBACK : option str
}.

Record Config := {
  MAIN_HOSTS : list str;
  HOSTING_BASE_DOMAIN : str;
  SPA_FALLBACK : bool
}.

Definition configOfEnv (e : Env) : Config :=
  {| MAIN_HOSTS :=
       List.filter JS.truthy
         (map JS.trim
            (JS.split ","%char
               (JS.orElse (env_MAIN_HOSTS e)
                  (lit "quick-stage.app,www.quick-stage.app,quickstage.app,www.quickstage.app"))));
     HOSTING_BASE_DOMAIN := JS.orElse (env_HOSTING_BASE_DOMAIN e) (lit "quick-stage.app");
     SPA_FALLBACK :=
       JS.eqb (JS.toLowerCase (JS.orElse (env_SPA_FALLBACK e) (lit "true"))) (lit "true") |}.

Definition defaultConfig : Config :=
  configOfEnv {| env_MAIN_HOSTS := None; env_HOSTING_BASE_DOMAIN := None;
                 env_SPA_FALLBACK := None |}.

Definition META_PREFIX : str := lit "__meta/projects/".
Definition SITES_PREFIX : str := lit "sites/".

(* ===================================================================== *)
(** ** src/index.js: the upload handler                                    *)
(* ===================================================================== *)

Inductive EntryType := File | Directory.

(** One element of [directory.files]. *)
Record Entry := { type : EntryType; path : str; data : str }.

(** The uploaded file as [unzipper.Open.file] sees it. *)
Inductive ZipFile := Unreadable | Readable (files : list Entry).

(** What the loop does to the outside, in order. *)
Inductive Event := Extracted (entryPath : str) | PutSent (key : str).

Inductive UploadBody :=
  | Failure (error : str)
  | Success (message : str) (uploaded skipped : nat) (url : str).

Record UploadResponse := { upStatus : nat; upBody : UploadBody }.

(** The variables the loop of the handler updates. *)
Record Progress := {
  uploaded : nat;
  skipped : nat;
  bucket : Bucket;
  events : list Event
}.

Inductive LoopResult := Completed (st : Progress) | Threw (e : Exn) (st : Progress).

(* ===================================================================== *)
(** ** src/index.js: the serve handler                                     *)
(* ===================================================================== *)

(** The express response while the handler runs. *)
Record Res := {
  status : nat;
  contentType : option str;
  cacheControl : option str
}.

(** The response once [send] was called. *)
Record Sent := { sentRes : Res; sentBody : str }.

(** The three lookups of the chain. *)
Inductive Step := Exact | ImplicitHtml | SpaIndex.

(** A [try] block of the chain before its [catch]. *)
Inductive Attempt := Returned (r : Sent) | Thrown (e : Exn) (res : Res).

Definition freshRes : Res :=
  {| status := 200; contentType := None; cacheControl := None |}.

Definition setStatus (n : nat) (r : Res) : Res :=
  {| status := n; contentType := contentType r; cacheControl := cacheControl r |}.

Definition setContentType (v : str) (r : Res) : Res :=
  {| status := status r; contentType := Some v; cacheControl := cacheControl r |}.

Definition setCacheControl (v : str) (r : Res) : Res :=
  {| status := status r; contentType := contentType r; cacheControl := Some v |}.

Definition send (r : Res) (buf : str) : Sent := {| sentRes := r; sentBody := buf |}.

(** [catch {}]: whatever was thrown is dropped, the handler goes on with
    the response as the block left it. *)
Definition swallow (a : Attempt) : Sent + Res :=
  match a with
  | Returned r => inl r
  | Thrown _ res => inr res
  end.

Section Handlers.

Variable mime_lookup : str -> option str.
Variable cfg : Config.
Variable faults : Faults.

Definition projectExists (b : Bucket) (slug : str) : bool :=
  let key := META_PREFIX ++ slug ++ lit ".json" in
  match headObject faults b key with
  | inr _ => true
  | inl _ => false
  end.

Definition json (code : nat) (error : str) : UploadResponse :=
  {| upStatus := code; upBody := Failure error |}.

(** The body of [for (const entry of directory.files)]. *)
Definition loopBody (slug : str) (st : Progress) (entry : Entry) : LoopResult :=
  match type entry with
  | Directory =>
      Completed {| uploaded := uploaded st; skipped := S (skipped st);
                   bucket := bucket st; events := events st |}
  | File =>
      let relPath := JS.dropWhile (Ascii.eqb "/"%char) (path entry) in
      if JS.includes (lit "..") relPath then
        Completed {| uploaded := uploaded st; skipped := S (skipped st);
                     bucket := bucket st; events := events st |}
      else
        let keyPath := safeJoinPosix (SITES_PREFIX ++ slug) relPath in
        let contentType :=
          JS.orElse (lookupContentType mime_lookup relPath)
                    (lit "application/octet-stream") in
        let bodyStream := data entry in
        let events' := events st ++ [Extracted (path entry); PutSent keyPath] in
        match putObject faults (bucket st) keyPath
                {| objBody := bodyStream;
                   objContentType := Some contentType;
                   objCacheControl :=
                     Some (if JS.endsWith (lit ".html") (JS.toLowerCase relPath)
                           then lit "no-cache"
                           else lit "public, max-age=86400") |} with
        | inl e =>
            Threw e {| uploaded := uploaded st; skipped := skipped st;
                       bucket := bucket st; events := events' |}
        | inr b' =>
            Completed {| uploaded := S (uploaded st); skipped := skipped st;
                         bucket := b'; events := events' |}
        end
  end.

Fixpoint forEntries (slug : str) (st : Progress) (entries : list Entry) : LoopResult :=
  match entries with
  | [] => Completed st
  | entry :: rest =>
      match loopBody slug st entry with
      | Completed st' => forEntries slug st' rest
      | Threw e st' => Threw e st'
      end
  end.

(** [app.post("/api/projects/:slug/upload", ...)] behind [requireAuth]
    and multer: the response, the bucket afterwards and what the loop
    did. *)
Definition uploadHandler (b : Bucket) (slugParam : str) (file : option ZipFile)
  : UploadResponse * Bucket * list Event :=
  let slug := slugify slugParam in
  if negb (JS.truthy slug) then (json 400 (lit "Invalid project slug"), b, [])
  else if negb (projectExists b slug)
  then (json 404 (lit "Project not found. Create it first."), b, [])
  else
    match file with
    | None =>
        (json 400 (lit "Missing file (multipart field name must be 'file')"), b, [])
    | Some Unreadable => (json 500 (lit "Upload failed"), b, [])
    | Some (Readable files) =>
        if 2000 <? length files
        then (json 400 (lit "Zip has too many files (max 2000)."), b, [])
        else
          match forEntries slug
                  {| uploaded := 0; skipped := 0; bucket := b; events := [] |}
                  files with
          | Completed st =>
              ({| upStatus := 200;
                  upBody := Success (lit "Uploaded to R2") (uploaded st) (skipped st)
                              (lit "https://" ++ slug ++ lit "." ++
                               HOSTING_BASE_DOMAIN cfg ++ lit "/") |},
               bucket st, events st)
          | Threw _ st => (json 500 (lit "Upload failed"), bucket st, events st)
          end
    end.

Definition getProjectFromHost (host : str) : option str :=
  if negb (JS.truthy host) then None
  else
    let host := JS.toLowerCase (hd [] (JS.split ":"%char host)) in
    if JS.arrayIncludes (MAIN_HOSTS cfg) host then None
    else
      let base := JS.toLowerCase (HOSTING_BASE_DOMAIN cfg) in
      if JS.eqb host base then None
      else if JS.endsWith (lit "." ++ base) host then
        let sub := JS.sliceOffEnd (length base + 1) host in
        let project := hd [] (JS.split "."%char sub) in
        Some (slugify project)
      else None.

Definition fetchObject (b : Bucket) (key : str) : Exn + GetObjectOutput :=
  getObject faults b key.

(** A [try] block of the chain: fetch, set headers, read the body, send. *)
Definition attempt (b : Bucket) (key : str)
    (prepare : GetObjectOutput -> Res -> Res) (finish : Res -> Res)
    (res : Res) : Attempt :=
  match fetchObject b key with
  | inl e => Thrown e res
  | inr obj =>
      let res := prepare obj res in
      match streamToBuffer (Body obj) with
      | inl e => Thrown e res
      | inr buf => Returned (send (finish res) buf)
      end
  end.

Definition notFound (res : Res) : Sent :=
  send (setContentType (lit "text/plain") (setStatus 404 res)) (lit "Not Found").

Definition htmlType (obj : GetObjectOutput) : str :=
  JS.orElse (ContentType obj) (lit "text/html; charset=utf-8").

(** [app.get("*", ...)]: the response sent, and the keys fetched with the
    step that fetched each.  Nothing outside the three inner [try] blocks
    throws, so the outer [catch] with its 500 is never entered. *)
Definition serveHandler (b : Bucket) (host reqPath : str) : Sent * list (Step * str) :=
  match getProjectFromHost host with
  | None => (notFound freshRes, [])
  | Some project =>
      if negb (JS.truthy project) then (notFound freshRes, [])
      else
        let path := if JS.truthy reqPath then reqPath else lit "/" in
        let path := if JS.eqb path (lit "/") then lit "/index.html" else path in
        let rel := JS.dropWhile (Ascii.eqb "/"%char) path in
        let baseKey := safeJoinPosix (SITES_PREFIX ++ project) rel in
        let log1 := [(Exact, baseKey)] in
        match swallow
                (attempt b baseKey
                   (fun obj res =>
                      let contentType :=
                        JS.orElse (ContentType obj)
                          (JS.orElse (lookupContentType mime_lookup rel)
                             (lit "application/octet-stream")) in
                      let res := setContentType contentType (setStatus 200 res) in
                      match CacheControl obj with
                      | Some cc => if JS.truthy cc then setCacheControl cc res else res
                      | None => res
                      end)
                   (fun res => res) freshRes) with
        | inl r => (r, log1)
        | inr res1 =>
            let htmlKey := safeJoinPosix (SITES_PREFIX ++ project) (rel ++ lit ".html") in
            let tryHtml := negb (JS.includes (lit ".") rel)
                           && negb (JS.endsWith (lit "/") rel) in
            let log2 := if tryHtml then log1 ++ [(ImplicitHtml, htmlKey)] else log1 in
            match (if tryHtml
                   then swallow (attempt b htmlKey
                                   (fun obj res => setContentType (htmlType obj) res)
                                   (fun res => res) res1)
                   else inr res1) with
            | inl r => (r, log2)
            | inr res2 =>
                let indexKey := SITES_PREFIX ++ project ++ lit "/index.html" in
                let log3 := if SPA_FALLBACK cfg
                            then log2 ++ [(SpaIndex, indexKey)] else log2 in
                match (if SPA_FALLBACK cfg
                       then swallow (attempt b indexKey
                                       (fun obj res => setContentType (htmlType obj) res)
                                       (setStatus 200) res2)
                       else inr res2) with
                | inl r => (r, log3)
                | inr res3 => (notFound res3, log3)
                end
            end
        end
  end.

End Handlers.

(** A fragment of the extension table of the mime-types package, for the
    worked examples. *)
Definition sampleMime (p : str) : option str :=
  let ext := JS.toLowerCase (List.last (JS.split "."%char p) []) in
  if negb (JS.includes (lit ".") p) then None
  else if JS.eqb ext (lit "html") then Some (lit "text/html")
  else if JS.eqb ext (lit "css") then Some (lit "text/css")
  else if JS.eqb ext (lit "js") then Some (lit "application/javascript")
  else if JS.eqb ext (lit "png") then Some (lit "image/png")
  else None.

(* ===================================================================== *)
(** ** Path segments and namespaces                                        *)
(* ===================================================================== *)

(** The segments of a key or path: what lies between its slashes. *)
Definition segments (s : str) : list str := JS.split "/"%char s.

(** The key of the root of a project's namespace, [sites/<slug>]. *)
Definition namespaceRoot (slug : str) : str := SITES_PREFIX ++ slug.

(** A key lies in the namespace of [slug]: it is the root [sites/<slug>]
    or it starts with [sites/<slug>/]. *)
Definition inNamespace (slug key : str) : Prop :=
  key = namespaceRoot slug \/
  exists rest, rest <> [] /\ key = namespaceRoot slug ++ lit "/" ++ rest.

(** A path has a parent-directory segment. *)
Definition hasParentSegment (p : str) : bool :=
  existsb (JS.eqb (lit "..")) (segments p).

(* ===================================================================== *)
(** ** Definitions the statements use                                      *)
(* ===================================================================== *)

(** Two strings with the same first segment and the same non-empty later
    segments. *)
Definition sameWords (sep : ascii) (a b : str) : Prop :=
  hd [] (JS.split sep a) = hd [] (JS.split sep b) /\
  List.filter JS.truthy (tl (JS.split sep a)) =
  List.filter JS.truthy (tl (JS.split sep b)).

(** The parts [safeJoinPosix] keeps of a path. *)
Definition keptParts (p : str) : list str := List.filter keepPart (segments p).

(** The host as [getProjectFromHost] compares it: without the port, in
    lower case. *)
Definition normHost (host : str) : str :=
  JS.toLowerCase (hd [] (JS.split ":"%char host)).

(** [!project] in the serve handler: [null] and the empty string both
    mean that there is no project. *)
Definition noProject (r : option str) : bool :=
  match r with
  | None => true
  | Some s => negb (JS.truthy s)
  end.

(** The path of an entry without its leading slashes. *)
Definition relPathOf (e : Entry) : str := JS.dropWhile (Ascii.eqb "/"%char) (path e).

(** The entries the loop uploads: files whose path has no [..] in it. *)
Definition uploadable (e : Entry) : bool :=
  match type e with
  | File => negb (JS.includes (lit "..") (relPathOf e))
  | Directory => false
  end.

(** The state after an entry was skipped. *)
Definition skipOne (st : Progress) : Progress :=
  {| uploaded := uploaded st; skipped := S (skipped st);
     bucket := bucket st; events := events st |}.

Definition withBucket (b : Bucket) (st : Progress) : Progress :=
  {| uploaded := uploaded st; skipped := skipped st;
     bucket := b; events := events st |}.

Definition stateOf (r : LoopResult) : Progress :=
  match r with Completed st => st | Threw _ st => st end.

Definition resultWithBucket (b : Bucket) (r : LoopResult) : LoopResult :=
  match r with
  | Completed st => Completed (withBucket b st)
  | Threw e st => Threw e (withBucket b st)
  end.

(** One PutObject after the other. *)
Definition applyPuts (puts : list (str * Object)) (b : Bucket) : Bucket :=
  fold_left (fun acc kv => <[kv.1 := kv.2]> acc) puts b.

Definition putKeys (evs : list Event) : list str :=
  flat_map (fun ev => match ev with PutSent k => [k] | Extracted _ => [] end) evs.

(** The key and the object the loop puts for an entry it uploads. *)
Definition keyOf (slug : str) (e : Entry) : str :=
  safeJoinPosix (SITES_PREFIX ++ slug) (relPathOf e).

Definition objectOf (mime_lookup : str -> option str) (e : Entry) : Object :=
  {| objBody := data e;
     objContentType :=
       Some (JS.orElse (lookupContentType mime_lookup (relPathOf e))
               (lit "application/octet-stream"));
     objCacheControl :=
       Some (if JS.endsWith (lit ".html") (JS.toLowerCase (relPathOf e))
             then lit "no-cache" else lit "public, max-age=86400") |}.

Definition afterPut (key : str) (e : Entry) (st : Progress) : list Event :=
  events st ++ [Extracted (path e); PutSent key].

(** The state the loop starts from. *)
Definition startOf (b : Bucket) : Progress :=
  {| uploaded := 0; skipped := 0; bucket := b; events := [] |}.

(** The response after the loop. *)
Definition responseOf (cfg : Config) (slug : str) (run : LoopResult) : UploadResponse :=
  match run with
  | Completed st =>
      {| upStatus := 200;
         upBody := Success (lit "Uploaded to R2") (uploaded st) (skipped st)
                     (lit "https://" ++ slug ++ lit "." ++
                      HOSTING_BASE_DOMAIN cfg ++ lit "/") |}
  | Threw _ _ => {| upStatus := 500; upBody := Failure (lit "Upload failed") |}
  end.

(** Worked data: the project [demo] exists, and an archive with a
    traversal entry, a directory, a page and a file with two dots in its
    name. *)
Definition demoMeta : Object :=
  {| objBody := lit "{}";
     objContentType := Some (lit "application/json; charset=utf-8");
     objCacheControl := Some (lit "no-store") |}.

Definition demoBucket : Bucket := {[ lit "__meta/projects/demo.json" := demoMeta ]}.

Definition demoArchive : list Entry :=
  [ {| type := File; path := lit "../../etc/passwd"; data := lit "root" |};
    {| type := Directory; path := lit "css/"; data := [] |};
    {| type := File; path := lit "/index.html"; data := lit "<h1>hi</h1>" |};
    {| type := File; path := lit "notes..txt"; data := lit "n" |} ].

(** The upload of the worked archive. *)
Definition demoUpload : UploadResponse * Bucket * list Event :=
  uploadHandler sampleMime defaultConfig noFaults demoBucket (lit "demo")
    (Some (Readable demoArchive)).

(** The relative path the handler derives from the request path. *)
Definition relOf (reqPath : str) : str :=
  let path := if JS.truthy reqPath then reqPath else lit "/" in
  let path := if JS.eqb path (lit "/") then lit "/index.html" else path in
  JS.dropWhile (Ascii.eqb "/"%char) path.

(** The condition of the implicit-[.html] step. *)
Definition wantsHtml (rel : str) : bool :=
  negb (JS.includes (lit ".") rel) && negb (JS.endsWith (lit "/") rel).

Definition baseKeyOf (project rel : str) : str :=
  safeJoinPosix (SITES_PREFIX ++ project) rel.

Definition htmlKeyOf (project rel : str) : str :=
  safeJoinPosix (SITES_PREFIX ++ project) (rel ++ lit ".html").

Definition indexKeyOf (project : str) : str :=
  SITES_PREFIX ++ project ++ lit "/index.html".

(** What the first [try] block does to the response once the object is
    fetched. *)
Definition prepareExact (mime_lookup : str -> option str) (rel : str)
    (obj : GetObjectOutput) (res : Res) : Res :=
  let contentType :=
    JS.orElse (ContentType obj)
      (JS.orElse (lookupContentType mime_lookup rel) (lit "application/octet-stream")) in
  let res := setContentType contentType (setStatus 200 res) in
  match CacheControl obj with
  | Some cc => if JS.truthy cc then setCacheControl cc res else res
  | None => res
  end.

Definition prepareHtml (obj : GetObjectOutput) (res : Res) : Res :=
  setContentType (htmlType obj) res.

Definition exactStep (mime_lookup : str -> option str) (faults : Faults) (b : Bucket) (project rel : str) : Sent + Res :=
  swallow (attempt faults b (baseKeyOf project rel) (prepareExact mime_lookup rel)
             (fun res => res) freshRes).

Definition htmlStep (faults : Faults) (b : Bucket) (project rel : str) (res1 : Res) : Sent + Res :=
  if wantsHtml rel
  then swallow (attempt faults b (htmlKeyOf project rel) prepareHtml (fun res => res) res1)
  else inr res1.

Definition spaStep (cfg : Config) (faults : Faults) (b : Bucket) (project : str) (res2 : Res) : Sent + Res :=
  if SPA_FALLBACK cfg
  then swallow (attempt faults b (indexKeyOf project) prepareHtml (setStatus 200) res2)
  else inr res2.

Definition htmlLog (project rel : str) : list (Step * str) :=
  if wantsHtml rel
  then [(Exact, baseKeyOf project rel); (ImplicitHtml, htmlKeyOf project rel)]
  else [(Exact, baseKeyOf project rel)].

Definition spaLog (cfg : Config) (project rel : str) : list (Step * str) :=
  if SPA_FALLBACK cfg
  then htmlLog project rel ++ [(SpaIndex, indexKeyOf project)]
  else htmlLog project rel.

(** A lookup hits: the object is fetched and its body is read to the end. *)
Definition hit (faults : Faults) (b : Bucket) (key : str) : bool :=
  match getObject faults b key with
  | inr obj => negb (broken (Body obj))
  | inl _ => false
  end.

(** Two results of a fetch that differ at most in what was thrown. *)
Definition agreeUpToExn (r1 r2 : Exn + GetObjectOutput) : Prop :=
  match r1, r2 with
  | inr o1, inr o2 => o1 = o2
  | inl _, inl _ => True
  | _, _ => False
  end.

(** Worked data: a site with a page and a stylesheet, and a store whose
    reads of the stylesheet fail. *)
Definition htmlObject (body : str) : Object :=
  {| objBody := body;
     objContentType := Some (lit "text/html; charset=utf-8");
     objCacheControl := Some (lit "no-cache") |}.

Definition demoSite : Bucket :=
  <[ lit "sites/demo/index.html" := htmlObject (lit "<h1>home</h1>") ]>
    (<[ lit "sites/demo/app.css" :=
          {| objBody := lit "body{}";
             objContentType := Some (lit "text/css; charset=utf-8");
             objCacheControl := Some (lit "public, max-age=86400") |} ]> ∅).

Definition cssUnreachable : Faults :=
  {| getFails := fun key => JS.eqb key (lit "sites/demo/app.css");
     readFails := fun _ => false; putFails := fun _ => false;
     headFails := fun _ => false |}.

Definition noSpa : Config :=
  {| MAIN_HOSTS := MAIN_HOSTS defaultConfig;
     HOSTING_BASE_DOMAIN := HOSTING_BASE_DOMAIN defaultConfig;
     SPA_FALLBACK := false |}.

(** The site of the worked examples with only the page [about.html]. *)
Definition aboutSite : Bucket :=
  {[ lit "sites/demo/about.html" := htmlObject (lit "<h1>about</h1>") ]}.

Definition demoHost : str := lit "demo.quick-stage.app".

(** The class [[a-z0-9]]. *)
Definition isAlnum (c : ascii) : bool :=
  JS.between 97 122 c || JS.between 48 57 c.

(** A string has a character of [[a-z0-9]]. *)
Definition hasAlnum (s : str) : bool := existsb isAlnum s.

(** The put of an entry the loop uploads. *)
Definition putOf (mime_lookup : str -> option str) (slug : str) (e : Entry) : str * Object :=
  (keyOf slug e, objectOf mime_lookup e).

(** The three keys the chain can fetch for a project and a path. *)
Definition chainKeys (project rel : str) : list (Step * str) :=
  [(Exact, baseKeyOf project rel); (ImplicitHtml, htmlKeyOf project rel);
   (SpaIndex, indexKeyOf project)].

(** Worked data: a store that refuses the put of [sites/demo/b.txt]. *)
Definition textFile (p d : string) : Entry :=
  {| type := File; path := lit p; data := lit d |}.

Definition bUnwritable : Faults :=
  {| getFails := fun _ => false; readFails := fun _ => false;
     putFails := fun key => JS.eqb key (lit "sites/demo/b.txt");
     headFails := fun _ => false |}.


(** The [Cache-Control] header the first [try] block sets for a stored
    object: its recorded value unless that is missing or empty. *)
Definition cacheHeaderOf (o : Object) : option str :=
  match objCacheControl o with
  | Some cc => if JS.truthy cc then Some cc else None
  | None => None
  end.

(** Worked data: a stylesheet whose body cannot be read. *)
Definition cssUnreadable : Faults :=
  {| getFails := fun _ => false;
     readFails := fun key => JS.eqb key (lit "sites/demo/app.css");
     putFails := fun _ => false; headFails := fun _ => false |}.

Definition cssOnly : Bucket :=
  {[ lit "sites/demo/app.css" :=
       {| objBody := lit "body{}";
          objContentType := Some (lit "text/css; charset=utf-8");
          objCacheControl := Some (lit "public, max-age=86400") |} ]}.

(* ===================================================================== *)
(** ** src/lib/util.js and src/index.js: creating a project                *)
(* ===================================================================== *)

(** [req.user] as far as the handler reads it. *)
Record User := { user_id : option str; user_email : option str }.

(** The record of a project. *)
Record ProjectMeta := {
  meta_slug : str;
  meta_name : str;
  meta_createdAt : str;
  meta_owner : str;
  meta_hostingUrl : str
}.

Inductive CreateBody :=
  | CreateFailure (error : str)
  | Created (project : ProjectMeta).

Record CreateResponse := { crStatus : nat; crBody : CreateBody }.

Section Create.

(** [Math.random]: [rand k] is [Math.floor(x * 10)] for the number [x] of
    the [k]-th call, taken modulo 10 as [x] lies in [[0, 1)].
    [JSON.stringify(obj, null, 2)] is a parameter too. *)
Variable rand : nat -> nat.
Variable stringify : ProjectMeta -> str.
Variable cfg : Config.
Variable faults : Faults.

(** [randomSuffix(len)], started at the [k]-th call of [Math.random]. *)
Fixpoint randomSuffix (k len : nat) : str :=
  match len with
  | 0 => []
  | S n => nth (rand k mod 10) (lit "0123456789") "0"%char :: randomSuffix (S k) n
  end.

Definition putJson (b : Bucket) (key : str) (obj : ProjectMeta) : Exn + Bucket :=
  putObject faults b key
    {| objBody := stringify obj;
       objContentType := Some (lit "application/json; charset=utf-8");
       objCacheControl := Some (lit "no-store") |}.

(** The [while (tries < 20)] loop: [tries] and [slug] when it is left.
    [fuel] bounds the iterations; 20 is enough from [tries = 0]. *)
Fixpoint whileTries (b : Bucket) (slug : str) (fuel tries k : nat) : nat * str :=
  match fuel with
  | 0 => (tries, slug)
  | S fuel' =>
      if tries <? 20 then
        let candidate := slug ++ lit "-" ++ randomSuffix k 3 in
        if negb (projectExists faults b candidate) then (tries, candidate)
        else whileTries b slug fuel' (S tries) (k + 3)
      else (tries, slug)
  end.

Definition createError (code : nat) (error : str) : CreateResponse :=
  {| crStatus := code; crBody := CreateFailure error |}.

(** [app.post("/api/projects", ...)] behind [requireAuth]: [name] is [None]
    when the body has no string under [name]; [k] counts the calls of
    [Math.random] so far, [now] is [new Date().toISOString()]. *)
Definition createHandler (b : Bucket) (name desiredSlug : option str)
    (user : option User) (now : str) (k : nat) : CreateResponse * Bucket :=
  match name with
  | None => (createError 400 (lit "name is required"), b)
  | Some name =>
      if negb (JS.truthy name) then (createError 400 (lit "name is required"), b)
      else
        let slug := slugify (JS.orElse desiredSlug name) in
        if negb (JS.truthy slug) then (createError 400 (lit "Invalid name/slug"), b)
        else
          let '(tries, slug) :=
            if projectExists faults b slug then whileTries b slug 20 0 k
            else (0, slug) in
          if 20 <=? tries
          then (createError 409
                  (lit "Could not find an available slug. Try another name."), b)
          else
            let meta :=
              {| meta_slug := slug;
                 meta_name := name;
                 meta_createdAt := now;
                 meta_owner :=
                   JS.orElse (match user with Some u => user_id u | None => None end)
                     (JS.orElse (match user with Some u => user_email u | None => None end)
                        (lit "unknown"));
                 meta_hostingUrl :=
                   lit "https://" ++ slug ++ lit "." ++ HOSTING_BASE_DOMAIN cfg |} in
            match putJson b (META_PREFIX ++ slug ++ lit ".json") meta with
            | inl _ => (createError 500 (lit "Server error creating project"), b)
            | inr b' => ({| crStatus := 200; crBody := Created meta |}, b')
            end
  end.

End Create.

(** The key of the record of a project. *)
Definition metaKey (slug : str) : str := META_PREFIX ++ slug ++ lit ".json".

(** The object [putJson] stores. *)
Definition jsonObject (stringify : ProjectMeta -> str) (meta : ProjectMeta) : Object :=
  {| objBody := stringify meta;
     objContentType := Some (lit "application/json; charset=utf-8");
     objCacheControl := Some (lit "no-store") |}.

(** A stand-in for [JSON.stringify] in the worked examples. *)
Definition sampleStringify (m : ProjectMeta) : str :=
  lit "{slug:" ++ meta_slug m ++ lit "}".

(** The [j]-th candidate of the loop that started at the [k]-th call of
    [Math.random]. *)
Definition candidate (rand : nat -> nat) (slug : str) (k j : nat) : str :=
  slug ++ lit "-" ++ randomSuffix rand (k + 3 * j) 3.

(** The slug the handler starts from. *)
Definition baseSlug (name : str) (desiredSlug : option str) : str :=
  slugify (JS.orElse desiredSlug name).

(** The record the handler writes for a slug. *)
Definition metaFor (cfg : Config) (slug name : str) (user : option User) (now : str)
    : ProjectMeta :=
  {| meta_slug := slug;
     meta_name := name;
     meta_createdAt := now;
     meta_owner :=
       JS.orElse (match user with Some u => user_id u | None => None end)
         (JS.orElse (match user with Some u => user_email u | None => None end)
            (lit "unknown"));
     meta_hostingUrl := lit "https://" ++ slug ++ lit "." ++ HOSTING_BASE_DOMAIN cfg |}.

(** Worked data: every random digit is 7, and a bucket in which [demo] and
    its only candidate [demo-777] are taken. *)
Definition sevens (k : nat) : nat := 7.

Definition crowdedBucket : Bucket :=
  <[ lit "__meta/projects/demo-777.json" := demoMeta ]> demoBucket.

(** Worked data: a project whose slug fills all 63 characters is taken. *)
Definition longName : str := repeat "a"%char 63.

Definition longTaken : Bucket := {[ metaKey longName := demoMeta ]}.

(* ===================================================================== *)
(** ** requireAuth and validateToken (second part of src/lib/dns.js)       *)
(* ===================================================================== *)

(** What [fetch(meUrl, ...)] followed by [resp.json()] comes to: the
    request is rejected (network failure, abort after the timeout), or a
    response arrives, [ok] or not, whose body is not JSON, or is a falsy
    JSON value ([None]), or a value with the properties [id] and [email]. *)
Inductive MeBody := NotJson | JsonValue (data : option User).
Inductive MeReply := Rejected | Replied (ok : bool) (body : MeBody).

Inductive AuthResult := Unauthorized | Next (user : User).

(** A line terminator, which [.] does not match. *)
Definition isLineTerminator (c : ascii) : bool :=
  (JS.code c =? 10) || (JS.code c =? 13).

(** [auth.match(/^Bearer\s+(.+)$/i)]: the first group of the match.  After
    the word, [\s+] takes all the white space it can and gives back one
    character when nothing else is left for [(.+)]. *)
Definition matchBearer (auth : str) : option str :=
  if JS.eqb (JS.toLowerCase (firstn 6 auth)) (lit "bearer") then
    let rest := skipn 6 auth in
    let tail := JS.dropWhile JS.isSpace rest in
    if JS.eqb tail rest then None
    else
      match tail with
      | _ :: _ => if existsb isLineTerminator tail then None else Some tail
      | [] =>
          match rev rest with
          | c :: _ :: _ => if isLineTerminator c then None else Some [c]
          | _ => None
          end
      end
  else None.

Section Auth.

(** [process.env.OAUTH_ME_URL] and the network. *)
Variable OAUTH_ME_URL : option str.
Variable fetchMe : str -> str -> MeReply.

(** [validateToken]: [inl] when it throws; with it the requests sent, each
    with its URL and [Authorization] header. *)
Definition validateToken (authorization : option str)
    : (Exn + option User) * list (str * str) :=
  match OAUTH_ME_URL with
  | None => (inl StoreFailure, [])
  | Some meUrl =>
      if negb (JS.truthy meUrl) then (inl StoreFailure, [])
      else
        let auth := JS.orElse authorization [] in
        match matchBearer auth with
        | None => (inr None, [])
        | Some m1 =>
            let token := JS.trim m1 in
            let header := lit "Bearer " ++ token in
            let sent := [(meUrl, header)] in
            match fetchMe meUrl header with
            | Rejected => (inl StoreFailure, sent)
            | Replied ok body =>
                if negb ok then (inr None, sent)
                else
                  match body with
                  | NotJson => (inl StoreFailure, sent)
                  | JsonValue None => (inr None, sent)
                  | JsonValue (Some data) =>
                      if negb (JS.truthy (JS.orElse (user_id data) []))
                         && negb (JS.truthy (JS.orElse (user_email data) []))
                      then (inr None, sent)
                      else (inr (Some data), sent)
                  end
            end
        end
  end.

(** [requireAuth]: 401 or [next()] with [req.user] set. *)
Definition requireAuth (authorization : option str) : AuthResult * list (str * str) :=
  match validateToken authorization with
  | (inl _, sent) => (Unauthorized, sent)
  | (inr None, sent) => (Unauthorized, sent)
  | (inr (Some user), sent) => (Next user, sent)
  end.

End Auth.

(* ===================================================================== *)
(** ** src/lib/dns.js and the DNS check of src/index.js                    *)
(* ===================================================================== *)

(** What the DNS-over-HTTPS request comes to: rejected, or a response, [ok]
    or not, whose body is not JSON or is JSON with the [data] of the
    entries of [Answer] ([None] when there is no [Answer]). *)
Inductive DohBody := DohNotJson | DohJson (answer : option (list str)).
Inductive DohReply := DohRejected | DohReplied (ok : bool) (body : DohBody).

Inductive VerifyResponse :=
  | VerifyError (code : nat) (error : str)
  | VerifyOk (domain : str) (cname a aaaa : list str) (hint : str).

Section Dns.

Variable doh : str -> str -> DohReply.
Variable cfg : Config.

(** [dohLookup(name, type)]; [inl] when it throws. *)
Definition dohLookup (name type : str) : Exn + list str :=
  match doh name type with
  | DohRejected => inl StoreFailure
  | DohReplied ok body =>
      if negb ok then inl StoreFailure
      else match body with
           | DohNotJson => inl StoreFailure
           | DohJson answer => inr (match answer with Some l => l | None => [] end)
           end
  end.

(** [app.get("/api/domains/verify", ...)] behind [requireAuth]: the answer
    and the lookups made, in order, each with its name and type. *)
Definition verifyHandler (query : option str) : VerifyResponse * list (str * str) :=
  let domain := JS.toLowerCase (JS.trim (JS.orElse query [])) in
  if negb (JS.truthy domain) || (length domain <? 3)
  then (VerifyError 400 (lit "domain is required"), [])
  else
    match dohLookup domain (lit "CNAME") with
    | inl _ => (VerifyError 500 (lit "DNS lookup failed"), [(domain, lit "CNAME")])
    | inr cname =>
        match dohLookup domain (lit "A") with
        | inl _ => (VerifyError 500 (lit "DNS lookup failed"),
                    [(domain, lit "CNAME"); (domain, lit "A")])
        | inr a =>
            match dohLookup domain (lit "AAAA") with
            | inl _ => (VerifyError 500 (lit "DNS lookup failed"),
                        [(domain, lit "CNAME"); (domain, lit "A"); (domain, lit "AAAA")])
            | inr aaaa =>
                (VerifyOk domain cname a aaaa
                   (lit "For a custom domain, set CNAME " ++ domain ++
                    lit " -> <project>." ++ HOSTING_BASE_DOMAIN cfg),
                 [(domain, lit "CNAME"); (domain, lit "A"); (domain, lit "AAAA")])
            end
        end
    end.

End Dns.

(** The domain as the DNS check uses it. *)
Definition normDomain (query : option str) : str :=
  JS.toLowerCase (JS.trim (JS.orElse query [])).

(** The three lookups of the DNS check. *)
Definition allLookups (domain : str) : list (str * str) :=
  [(domain, lit "CNAME"); (domain, lit "A"); (domain, lit "AAAA")].

(** The five types that get a charset. *)
Definition charsetTypes : list str :=
  [lit "text/html"; lit "text/css"; lit "application/javascript"; lit "text/plain";
   lit "application/json"].

(* ===================================================================== *)
(** * Properties                                                           *)
(* ===================================================================== *)

(** ** Strings *)

Lemma eqb_spec_str (a b : str) : JS.eqb a b = true <-> a = b.
Proof. unfold JS.eqb. apply bool_decide_eq_true. Qed.

Lemma eqb_false_str (a b : str) : JS.eqb a b = false <-> a <> b.
Proof. unfold JS.eqb. apply bool_decide_eq_false. Qed.

Lemma truthy_spec (s : str) : JS.truthy s = true <-> s <> [].
Proof. destruct s; simpl; split; congruence. Qed.

Lemma keepPart_spec (p : str) :
  keepPart p = true <-> p <> [] /\ p <> lit "." /\ p <> lit "..".
Proof.
  unfold keepPart.
  destruct (JS.eqb p (lit ".")) eqn:E1; destruct (JS.eqb p []) eqn:E2;
    destruct (JS.eqb p (lit "..")) eqn:E3; simpl;
    rewrite ?eqb_spec_str, ?eqb_false_str in *; subst; split;
    try discriminate; try tauto; intros (? & ? & ?); congruence.
Qed.

Lemma split_not_nil sep s : JS.split sep s <> [].
Proof.
  destruct s as [|c t]; simpl; [discriminate|].
  destruct (Ascii.eqb c sep); [discriminate|].
  destruct (JS.split sep t); discriminate.
Qed.

Lemma split_app sep a b :
  JS.split sep (a ++ sep :: b) = JS.split sep a ++ JS.split sep b.
Proof.
  induction a as [|c t IH]; simpl.
  - rewrite Ascii.eqb_refl. reflexivity.
  - destruct (Ascii.eqb c sep); [rewrite IH; reflexivity|].
    rewrite IH. destruct (JS.split sep t) eqn:E; [|reflexivity].
    exfalso. exact (split_not_nil _ _ E).
Qed.

Lemma split_no_sep sep s : ~ In sep s -> JS.split sep s = [s].
Proof.
  induction s as [|c t IH]; simpl; intros H; [reflexivity|].
  destruct (Ascii.eqb c sep) eqn:E.
  - apply Ascii.eqb_eq in E. subst. tauto.
  - rewrite IH by tauto. reflexivity.
Qed.

Lemma split_parts_no_sep sep s : Forall (fun w => ~ In sep w) (JS.split sep s).
Proof.
  induction s as [|c t IH]; simpl.
  - constructor; [tauto|constructor].
  - destruct (Ascii.eqb c sep) eqn:E.
    + constructor; [tauto|exact IH].
    + destruct (JS.split sep t) as [|w ws]; inversion IH; subst.
      * constructor; [|constructor]. simpl. intros [->|[]].
        rewrite Ascii.eqb_refl in E. discriminate.
      * constructor; [|assumption]. simpl. intros [->|?]; [|tauto].
        rewrite Ascii.eqb_refl in E. discriminate.
Qed.

Lemma join_cons sep w ws :
  ws <> [] -> JS.join sep (w :: ws) = w ++ sep ++ JS.join sep ws.
Proof. destruct ws; [congruence|reflexivity]. Qed.

Lemma join_app sep l1 l2 :
  l1 <> [] -> l2 <> [] ->
  JS.join sep (l1 ++ l2) = JS.join sep l1 ++ sep ++ JS.join sep l2.
Proof.
  induction l1 as [|w ws IH]; intros H1 H2; [congruence|].
  destruct ws as [|w' ws'].
  - simpl app. rewrite join_cons by assumption. reflexivity.
  - change ((w :: w' :: ws') ++ l2) with (w :: (w' :: ws') ++ l2).
    rewrite join_cons by discriminate.
    rewrite IH by (assumption || discriminate).
    rewrite (join_cons sep w (w' :: ws')) by discriminate.
    rewrite <- !app_assoc. reflexivity.
Qed.

Lemma join_split sep s : JS.join [sep] (JS.split sep s) = s.
Proof.
  induction s as [|c t IH]; simpl; [reflexivity|].
  destruct (Ascii.eqb c sep) eqn:E.
  - apply Ascii.eqb_eq in E. subst c.
    destruct (JS.split sep t) eqn:Es; [exfalso; exact (split_not_nil _ _ Es)|].
    rewrite <- IH. reflexivity.
  - destruct (JS.split sep t) as [|w ws] eqn:Es;
      [exfalso; exact (split_not_nil _ _ Es)|].
    rewrite <- IH. destruct ws; reflexivity.
Qed.

Lemma split_join sep l :
  l <> [] -> Forall (fun w => ~ In sep w) l ->
  JS.split sep (JS.join [sep] l) = l.
Proof.
  induction l as [|w ws IH]; intros Hne Hall; [congruence|].
  inversion Hall as [|? ? Hw Hws]; subst.
  destruct ws as [|w' ws'].
  - simpl. apply split_no_sep. assumption.
  - rewrite join_cons by discriminate. cbn [app].
    rewrite split_app, IH by (assumption || discriminate).
    rewrite split_no_sep by assumption. reflexivity.
Qed.

Lemma split_cons_sep sep t : JS.split sep (sep :: t) = [] :: JS.split sep t.
Proof. simpl. rewrite Ascii.eqb_refl. reflexivity. Qed.

Lemma split_cons_other sep c t :
  Ascii.eqb c sep = false ->
  JS.split sep (c :: t) = (c :: hd [] (JS.split sep t)) :: tl (JS.split sep t).
Proof.
  intros E. simpl. rewrite E.
  destruct (JS.split sep t) eqn:Es; [exfalso; exact (split_not_nil _ _ Es)|].
  reflexivity.
Qed.

Lemma split_hd_tl sep s :
  JS.split sep s = hd [] (JS.split sep s) :: tl (JS.split sep s).
Proof.
  destruct (JS.split sep s) eqn:Es; [exfalso; exact (split_not_nil _ _ Es)|].
  reflexivity.
Qed.

Lemma sameWords_filter sep a b :
  sameWords sep a b ->
  List.filter JS.truthy (JS.split sep a) = List.filter JS.truthy (JS.split sep b).
Proof.
  intros [Hh Ht]. rewrite (split_hd_tl sep a), (split_hd_tl sep b).
  simpl. rewrite Hh, Ht. reflexivity.
Qed.

Lemma sameWords_cons_other sep c a b :
  Ascii.eqb c sep = false -> sameWords sep a b -> sameWords sep (c :: a) (c :: b).
Proof.
  intros E [Hh Ht]. unfold sameWords.
  rewrite !(split_cons_other sep c) by assumption. simpl.
  rewrite Hh. auto.
Qed.

Lemma sameWords_cons_sep sep a b :
  List.filter JS.truthy (JS.split sep a) = List.filter JS.truthy (JS.split sep b) ->
  sameWords sep (sep :: a) (sep :: b).
Proof. intros H. unfold sameWords. rewrite !split_cons_sep. simpl. auto. Qed.

Lemma dropWhile_sep_words sep t :
  List.filter JS.truthy (JS.split sep (JS.dropWhile (Ascii.eqb sep) t)) =
  List.filter JS.truthy (JS.split sep t).
Proof.
  induction t as [|c t IH]; [reflexivity|].
  cbn [JS.dropWhile]. destruct (Ascii.eqb sep c) eqn:E; [|reflexivity].
  apply Ascii.eqb_eq in E. subst c. rewrite split_cons_sep. exact IH.
Qed.

Lemma replaceFirstRun_words sep s :
  sameWords sep (JS.replaceFirstRun (Ascii.eqb sep) sep s) s.
Proof.
  induction s as [|c t IH]; [split; reflexivity|].
  cbn [JS.replaceFirstRun]. destruct (Ascii.eqb sep c) eqn:E.
  - apply Ascii.eqb_eq in E. subst c.
    apply sameWords_cons_sep, dropWhile_sep_words.
  - apply sameWords_cons_other; [|exact IH].
    rewrite Ascii.eqb_sym. exact E.
Qed.

Lemma replaceRuns_words sep s :
  sameWords sep (JS.replaceRuns (Ascii.eqb sep) sep s) s.
Proof.
  induction s as [|c t IH]; [split; reflexivity|].
  assert (Hstep : JS.replaceRuns (Ascii.eqb sep) sep (c :: t) =
                  if Ascii.eqb sep c then
                    match t with
                    | [] => [sep]
                    | d :: _ => if Ascii.eqb sep d
                                then JS.replaceRuns (Ascii.eqb sep) sep t
                                else sep :: JS.replaceRuns (Ascii.eqb sep) sep t
                    end
                  else c :: JS.replaceRuns (Ascii.eqb sep) sep t) by reflexivity.
  rewrite Hstep. clear Hstep.
  destruct (Ascii.eqb sep c) eqn:E.
  - apply Ascii.eqb_eq in E. subst c.
    destruct t as [|d t']; [split; reflexivity|].
    destruct (Ascii.eqb sep d) eqn:Ed.
    + apply Ascii.eqb_eq in Ed. subst d.
      remember (JS.replaceRuns (Ascii.eqb sep) sep (sep :: t')) as R.
      destruct IH as [Hh Ht]. rewrite split_cons_sep in Hh, Ht.
      split.
      * rewrite Hh, split_cons_sep. reflexivity.
      * rewrite Ht, !split_cons_sep. reflexivity.
    + apply sameWords_cons_sep, sameWords_filter, IH.
  - apply sameWords_cons_other; [|exact IH].
    rewrite Ascii.eqb_sym. exact E.
Qed.

Lemma filter_keepPart_truthy (l : list str) :
  List.filter keepPart (List.filter JS.truthy l) = List.filter keepPart l.
Proof.
  induction l as [|w ws IH]; [reflexivity|].
  simpl. destruct w; simpl; [exact IH|]. rewrite IH. reflexivity.
Qed.

(** [safeJoinPosix] in one line: the parts of both arguments that are not
    empty, [.] or [..], joined by slashes. *)
Lemma safeJoinPosix_parts prefix rel :
  safeJoinPosix prefix rel =
  JS.join (lit "/")
    (List.filter keepPart (segments prefix) ++ List.filter keepPart (segments rel)).
Proof.
  unfold safeJoinPosix, segments.
  rewrite (sameWords_filter _ _ _ (replaceRuns_words "/"%char _)).
  rewrite (sameWords_filter _ _ _ (replaceFirstRun_words "/"%char _)).
  rewrite filter_keepPart_truthy.
  change (prefix ++ lit "/" ++ rel) with (prefix ++ "/"%char :: rel).
  rewrite split_app, List.filter_app. reflexivity.
Qed.

Lemma filter_all {A} (f : A -> bool) (l : list A) :
  Forall (fun x => f x = true) l -> List.filter f l = l.
Proof.
  induction 1 as [|x xs Hx _ IH]; [reflexivity|].
  simpl. rewrite Hx, IH. reflexivity.
Qed.

Lemma filter_Forall_both {A} (f : A -> bool) (P : A -> Prop) (l : list A) :
  Forall P l -> Forall (fun x => f x = true /\ P x) (List.filter f l).
Proof.
  induction 1 as [|x xs Hx _ IH]; simpl; [constructor|].
  destruct (f x) eqn:E; [constructor; auto|exact IH].
Qed.

Lemma join_nonempty sep w ws : w <> [] -> JS.join sep (w :: ws) <> [].
Proof.
  intros Hw. destruct ws; simpl; [assumption|].
  destruct w; [congruence|discriminate].
Qed.

Lemma keptParts_good p :
  Forall (fun w => keepPart w = true /\ ~ In "/"%char w) (keptParts p).
Proof. apply filter_Forall_both, split_parts_no_sep. Qed.

Lemma segments_prefix_slash slug :
  Forall (fun w => keepPart w = true) (segments slug) ->
  List.filter keepPart (segments (SITES_PREFIX ++ slug ++ lit "/")) =
  lit "sites" :: segments slug.
Proof.
  intros H. unfold segments in *.
  change (SITES_PREFIX ++ slug ++ lit "/")
    with (lit "sites" ++ "/"%char :: (slug ++ "/"%char :: [])).
  rewrite !split_app, !List.filter_app, (filter_all _ _ H).
  simpl. rewrite app_nil_r. reflexivity.
Qed.

Lemma segments_prefix slug :
  Forall (fun w => keepPart w = true) (segments slug) ->
  List.filter keepPart (segments (SITES_PREFIX ++ slug)) = lit "sites" :: segments slug.
Proof.
  intros H. unfold segments in *.
  change (SITES_PREFIX ++ slug) with (lit "sites" ++ "/"%char :: slug).
  rewrite split_app, List.filter_app, (filter_all _ _ H). reflexivity.
Qed.

Lemma join_root slug :
  JS.join (lit "/") (lit "sites" :: segments slug) = namespaceRoot slug.
Proof.
  rewrite join_cons by apply split_not_nil.
  unfold segments. change (lit "/") with ["/"%char].
  rewrite join_split. reflexivity.
Qed.

(** The key of a well-formed prefix and any path, in full. *)
Lemma safeJoinPosix_key slug p :
  Forall (fun w => keepPart w = true) (segments slug) ->
  safeJoinPosix (SITES_PREFIX ++ slug) p =
    JS.join (lit "/") ((lit "sites" :: segments slug) ++ keptParts p) /\
  safeJoinPosix (SITES_PREFIX ++ slug ++ lit "/") p =
    JS.join (lit "/") ((lit "sites" :: segments slug) ++ keptParts p).
Proof.
  intros H. rewrite !safeJoinPosix_parts.
  rewrite segments_prefix, segments_prefix_slash by assumption. auto.
Qed.

Lemma joined_in_namespace slug (parts : list str) :
  Forall (fun w => keepPart w = true /\ ~ In "/"%char w) parts ->
  inNamespace slug (JS.join (lit "/") ((lit "sites" :: segments slug) ++ parts)).
Proof.
  intros Hparts. destruct parts as [|w ws].
  - left. rewrite app_nil_r. apply join_root.
  - right. exists (JS.join (lit "/") (w :: ws)). split.
    + apply join_nonempty. inversion Hparts as [|? ? [Hk _] _]; subst.
      apply keepPart_spec in Hk. tauto.
    + rewrite join_app by discriminate. rewrite join_root. reflexivity.
Qed.

Lemma joined_segments slug (parts : list str) :
  Forall (fun w => keepPart w = true /\ ~ In "/"%char w) parts ->
  segments (JS.join (lit "/") ((lit "sites" :: segments slug) ++ parts)) =
  (lit "sites" :: segments slug) ++ parts.
Proof.
  intros Hparts. unfold segments at 1. change (lit "/") with ["/"%char].
  apply split_join; [discriminate|].
  apply Forall_app. split.
  - constructor; [vm_compute; intuition discriminate|].
    apply split_parts_no_sep.
  - eapply List.Forall_impl; [|exact Hparts]. simpl. tauto.
Qed.

(** ** C1: safe-join stays in the namespace *)

(** C1, as stated, fails: for the prefix [sites/./] (the slug [.] is not
    empty and has no [..] segment) and the path [x], the key is [sites/x],
    which does not start with the prefix. *)
Lemma safeJoinPosix_dot_slug_leaves_prefix :
  let slug := lit "." in
  let prefix := SITES_PREFIX ++ slug ++ lit "/" in
  slug <> [] /\ ~ In (lit "..") (segments slug) /\
  safeJoinPosix prefix (lit "x") = lit "sites/x" /\
  JS.startsWith prefix (safeJoinPosix prefix (lit "x")) = false.
Proof.
  cbv zeta. split; [discriminate|]. split; [|split; vm_compute; reflexivity].
  vm_compute. intros [H|[]]. discriminate.
Qed.

(** C1 (amended): for every slug none of whose segments is empty, [.] or
    [..], and every relative path [p], the key that [safeJoinPosix] makes of
    the prefix [sites/<slug>/] and [p] (the same key as for the prefix
    [sites/<slug>] the handlers pass) lies in the namespace: it is
    [sites/<slug>] itself or starts with [sites/<slug>/].  Its segments are
    [sites], those of the slug and the kept parts of [p]; none of them is
    [..], [.] or empty. *)
Theorem safeJoinPosix_in_namespace (slug p : str) :
  Forall (fun w => keepPart w = true) (segments slug) ->
  let key := safeJoinPosix (SITES_PREFIX ++ slug ++ lit "/") p in
  safeJoinPosix (SITES_PREFIX ++ slug) p = key /\
  inNamespace slug key /\
  segments key = (lit "sites" :: segments slug) ++ keptParts p /\
  ~ In (lit "..") (segments key) /\
  ~ In [] (segments key) /\
  ~ In (lit ".") (segments key).
Proof.
  intros Hslug key.
  destruct (safeJoinPosix_key slug p Hslug) as [Hbare Hslash].
  subst key. rewrite Hbare, Hslash.
  pose proof (keptParts_good p) as Hkept.
  split; [reflexivity|].
  split; [apply joined_in_namespace; exact Hkept|].
  rewrite joined_segments by exact Hkept.
  split; [reflexivity|].
  assert (Hall : Forall (fun w => keepPart w = true)
                   ((lit "sites" :: segments slug) ++ keptParts p)).
  { apply Forall_app. split.
    - constructor; [reflexivity|exact Hslug].
    - eapply List.Forall_impl; [|exact Hkept]. simpl. tauto. }
  rewrite List.Forall_forall in Hall.
  repeat split; intros Hin; apply Hall in Hin; vm_compute in Hin; discriminate.
Qed.

Lemma safeJoinPosix_in_namespace_witness :
  let key := safeJoinPosix (lit "sites/demo/") (lit "../../etc/../passwd") in
  key = lit "sites/demo/etc/passwd" /\ inNamespace (lit "demo") key /\
  ~ In (lit "..") (segments key).
Proof.
  pose proof (safeJoinPosix_in_namespace (lit "demo") (lit "../../etc/../passwd")) as H.
  cbv zeta in *.
  assert (Hslug : Forall (fun w => keepPart w = true) (segments (lit "demo"))).
  { vm_compute. repeat constructor. }
  specialize (H Hslug). destruct H as (_ & Hns & _ & Hdots & _).
  split; [vm_compute; reflexivity|]. split; assumption.
Defined.

(** ** Substrings *)

Lemma startsWith_spec p s : JS.startsWith p s = true <-> exists b, s = p ++ b.
Proof.
  revert s. induction p as [|a p IH]; intros s; simpl.
  - split; [intros _; exists s; reflexivity|reflexivity].
  - destruct s as [|c s].
    + split; [discriminate|intros [b Hb]; discriminate].
    + rewrite andb_true_iff, Ascii.eqb_eq, IH. split.
      * intros [-> [b ->]]. exists b. reflexivity.
      * intros [b Hb]. injection Hb as -> ->. split; [reflexivity|exists b; reflexivity].
Qed.

Lemma includes_spec p s :
  JS.includes p s = true <-> exists a b, s = a ++ p ++ b.
Proof.
  induction s as [|c s IH].
  - cbn [JS.includes]. rewrite orb_false_r, startsWith_spec. split.
    + intros [b Hb]. exists [], b. exact Hb.
    + intros (a & b & H). destruct a; [exists b; exact H|discriminate].
  - cbn [JS.includes]. rewrite orb_true_iff, startsWith_spec, IH. split.
    + intros [[b Hb]|(a & b & Hs)].
      * exists [], b. exact Hb.
      * exists (c :: a), b. rewrite Hs. reflexivity.
    + intros (a & b & H). destruct a as [|c' a].
      * left. exists b. exact H.
      * right. injection H as -> ->. exists a, b. reflexivity.
Qed.

Lemma includes_substring p a s b :
  JS.includes p (a ++ s ++ b) = false -> JS.includes p s = false.
Proof.
  intros H. destruct (JS.includes p s) eqn:E; [|reflexivity].
  apply includes_spec in E. destruct E as (a' & b' & ->).
  assert (Hin : JS.includes p (a ++ (a' ++ p ++ b') ++ b) = true).
  { apply includes_spec. exists (a ++ a'), (b' ++ b).
    rewrite <- !app_assoc. reflexivity. }
  congruence.
Qed.

Lemma endsWith_spec p s : JS.endsWith p s = true <-> exists a, s = a ++ p.
Proof.
  unfold JS.endsWith. rewrite startsWith_spec. split.
  - intros [b Hb]. exists (rev b).
    rewrite <- (rev_involutive s), Hb, rev_app_distr, rev_involutive. reflexivity.
  - intros [a ->]. exists (rev a). apply rev_app_distr.
Qed.

Lemma split_hd_prefix sep s : exists b, s = hd [] (JS.split sep s) ++ b.
Proof.
  induction s as [|c t [b IH]]; [exists []; reflexivity|].
  destruct (Ascii.eqb c sep) eqn:E.
  - apply Ascii.eqb_eq in E. subst c. rewrite split_cons_sep.
    exists (sep :: t). reflexivity.
  - rewrite split_cons_other by assumption. exists b.
    simpl. rewrite <- IH. reflexivity.
Qed.

(** Every segment of a path is a substring of it. *)
Lemma segment_is_substring sep w s :
  In w (JS.split sep s) -> exists a b, s = a ++ w ++ b.
Proof.
  revert w. induction s as [|c t IH]; intros w.
  - simpl. intros [<-|[]]. exists [], []. reflexivity.
  - destruct (Ascii.eqb c sep) eqn:E.
    + apply Ascii.eqb_eq in E. subst c. rewrite split_cons_sep.
      intros [<-|Hin].
      * exists [], (sep :: t). reflexivity.
      * destruct (IH _ Hin) as (a & b & ->). exists (sep :: a), b. reflexivity.
    + rewrite split_cons_other by assumption.
      intros [<-|Hin].
      * destruct (split_hd_prefix sep t) as [b Hb].
        exists [], b. simpl. rewrite <- Hb. reflexivity.
      * assert (Hin' : In w (JS.split sep t)).
        { rewrite (split_hd_tl sep t). right. exact Hin. }
        destruct (IH w Hin') as (a & b & ->).
        exists (c :: a), b. reflexivity.
Qed.

Lemma hasParentSegment_includes p :
  hasParentSegment p = true -> JS.includes (lit "..") p = true.
Proof.
  unfold hasParentSegment. rewrite existsb_exists.
  intros (w & Hin & Hw). apply eqb_spec_str in Hw. subst w.
  apply includes_spec. eapply segment_is_substring. exact Hin.
Qed.

(** ** The shape of a slug *)

Lemma replaceRuns_cons cls r c t :
  JS.replaceRuns cls r (c :: t) =
  if cls c then
    match t with
    | [] => [r]
    | d :: _ => if cls d then JS.replaceRuns cls r t else r :: JS.replaceRuns cls r t
    end
  else c :: JS.replaceRuns cls r t.
Proof. reflexivity. Qed.

Lemma replaceRuns_Forall (P : ascii -> Prop) cls r s :
  P r -> Forall (fun c => cls c = false -> P c) s ->
  Forall P (JS.replaceRuns cls r s).
Proof.
  intros Hr. induction 1 as [|c t Hc Ht IH]; [constructor|].
  rewrite replaceRuns_cons. destruct (cls c) eqn:E.
  - destruct t as [|d t']; [repeat constructor; exact Hr|].
    destruct (cls d); [exact IH|constructor; [exact Hr|exact IH]].
  - constructor; auto.
Qed.

Lemma replaceRuns_no_double r s :
  JS.includes [r; r] (JS.replaceRuns (Ascii.eqb r) r s) = false.
Proof.
  induction s as [|c t IH]; [reflexivity|].
  rewrite replaceRuns_cons. destruct (Ascii.eqb r c) eqn:E.
  - destruct t as [|d t'].
    + cbn. rewrite Ascii.eqb_refl. reflexivity.
    + destruct (Ascii.eqb r d) eqn:Ed; [exact IH|].
      cbn [JS.includes]. rewrite IH, orb_false_r.
      rewrite replaceRuns_cons, Ed.
      cbn. rewrite Ed, andb_false_r. reflexivity.
  - cbn [JS.includes]. rewrite IH, orb_false_r.
    cbn. rewrite E. reflexivity.
Qed.

Lemma stripEdges_substring c s : exists a b, s = a ++ JS.stripEdges c s ++ b.
Proof.
  unfold JS.stripEdges.
  set (s1 := match s with
             | d :: t => if Ascii.eqb d c then t else s
             | [] => []
             end).
  assert (H1 : exists a, s = a ++ s1).
  { subst s1. destruct s as [|d t]; [exists []; reflexivity|].
    destruct (Ascii.eqb d c); [exists [d]|exists []]; reflexivity. }
  destruct H1 as [a Ha].
  destruct (rev s1) as [|d t] eqn:Er.
  - exists s, []. rewrite app_nil_r. reflexivity.
  - destruct (Ascii.eqb d c).
    + exists a, [d]. rewrite Ha at 1. f_equal.
      rewrite <- (rev_involutive s1), Er. reflexivity.
    + exists a, []. rewrite app_nil_r. exact Ha.
Qed.

Lemma stripEdges_head c s :
  JS.includes [c; c] s = false -> hd_error (JS.stripEdges c s) <> Some c.
Proof.
  intros Hno. unfold JS.stripEdges.
  set (s1 := match s with
             | d :: t => if Ascii.eqb d c then t else s
             | [] => []
             end).
  assert (H1 : hd_error s1 <> Some c).
  { subst s1. destruct s as [|d t]; [discriminate|].
    destruct (Ascii.eqb d c) eqn:E.
    - apply Ascii.eqb_eq in E. subst d.
      destruct t as [|e t']; [discriminate|].
      simpl. intros [= ->]. cbn in Hno. rewrite !Ascii.eqb_refl in Hno. discriminate.
    - simpl. intros [= ->]. rewrite Ascii.eqb_refl in E. discriminate. }
  destruct (rev s1) as [|d t] eqn:Er; [discriminate|].
  destruct (Ascii.eqb d c); [|exact H1].
  assert (Hs1 : s1 = rev t ++ [d]).
  { rewrite <- (rev_involutive s1), Er. reflexivity. }
  rewrite Hs1 in H1. destruct (rev t); [discriminate|exact H1].
Qed.

Lemma slugChar_not_upper c : isSlugChar c = true -> JS.isUpper c = false.
Proof.
  destruct c as [[] [] [] [] [] [] [] []]; vm_compute; congruence.
Qed.

Lemma slugChar_not_slash_dot c :
  isSlugChar c = true -> c <> "/"%char /\ c <> "."%char.
Proof. split; intros ->; vm_compute in H; discriminate. Qed.

(** What holds of every result of [slugify]: its characters are of
    [[a-z0-9-]] and it has no upper-case letter, it is at most 63 long, it
    does not start with a hyphen and has no two hyphens in a row. *)
Lemma slugify_shape (input : str) :
  let s := slugify input in
  Forall (fun c => isSlugChar c = true) s /\
  JS.toLowerCase s = s /\
  length s <= 63 /\
  hd_error s <> Some "-"%char /\
  JS.includes (lit "--") s = false.
Proof.
  cbv zeta. unfold slugify.
  destruct (negb (JS.truthy input));
    [repeat split; try constructor; simpl; try lia; discriminate|].
  set (s1 := JS.replaceRuns (fun c => negb (isSlugChar c)) "-"%char
               (JS.toLowerCase (JS.trim input))).
  set (s2 := JS.replaceRuns (Ascii.eqb "-"%char) "-"%char s1).
  set (s3 := JS.stripEdges "-"%char s2).
  assert (H1 : Forall (fun c => isSlugChar c = true) s1).
  { apply replaceRuns_Forall; [reflexivity|].
    apply List.Forall_forall. intros c _ Hc. apply negb_false_iff. exact Hc. }
  assert (H2 : Forall (fun c => isSlugChar c = true) s2).
  { apply replaceRuns_Forall; [reflexivity|].
    eapply List.Forall_impl; [|exact H1]. auto. }
  assert (N2 : JS.includes (lit "--") s2 = false) by apply replaceRuns_no_double.
  destruct (stripEdges_substring "-"%char s2) as (a & b & Hsub). fold s3 in Hsub.
  assert (H3 : Forall (fun c => isSlugChar c = true) s3).
  { rewrite Hsub in H2. apply Forall_app in H2 as [_ H2].
    apply Forall_app in H2 as [H2 _]. exact H2. }
  assert (N3 : JS.includes (lit "--") s3 = false).
  { rewrite Hsub in N2. exact (includes_substring _ _ _ _ N2). }
  assert (Hchars : Forall (fun c => isSlugChar c = true) (JS.sliceTo 63 s3)).
  { unfold JS.sliceTo. rewrite <- (firstn_skipn 63 s3) in H3.
    apply Forall_app in H3 as [H3 _]. exact H3. }
  split; [exact Hchars|]. split; [|split; [|split]].
  - unfold JS.toLowerCase. clear -Hchars.
    induction Hchars as [|c t Hc _ IH]; [reflexivity|].
    simpl. rewrite IH. unfold JS.lowerChar.
    rewrite (slugChar_not_upper c Hc). reflexivity.
  - unfold JS.sliceTo. rewrite length_firstn. lia.
  - pose proof (stripEdges_head "-"%char s2 N2) as Hh. fold s3 in Hh.
    unfold JS.sliceTo. destruct s3; [discriminate|exact Hh].
  - unfold JS.sliceTo.
    apply (includes_substring _ [] _ (skipn 63 s3)).
    simpl. rewrite firstn_skipn. exact N3.
Qed.

Lemma slug_is_one_segment (s : str) :
  s <> [] -> Forall (fun c => isSlugChar c = true) s ->
  segments s = [s] /\ Forall (fun w => keepPart w = true) (segments s).
Proof.
  intros Hne Hall.
  assert (Hseg : segments s = [s]).
  { apply split_no_sep. intros Hin.
    rewrite List.Forall_forall in Hall. apply Hall in Hin. discriminate. }
  split; [exact Hseg|]. rewrite Hseg. constructor; [|constructor].
  apply keepPart_spec. split; [exact Hne|].
  split; intros ->; inversion Hall as [|? ? Hc _]; discriminate.
Qed.

Lemma slugify_segments (input : str) :
  JS.truthy (slugify input) = true ->
  Forall (fun w => keepPart w = true) (segments (slugify input)).
Proof.
  intros Ht. apply truthy_spec in Ht.
  apply slug_is_one_segment; [exact Ht|].
  apply (slugify_shape input).
Qed.

(** ** C8: slug normalization *)

(** C8: the claim promises a slug without a trailing hyphen; [slugify]
    strips the hyphens at the ends before it cuts to 63 characters, so the
    cut can end on a hyphen.  For 62 times [a], then [-b], the result is
    62 times [a] and a hyphen. *)
Theorem slugify_trailing_hyphen_after_cut :
  let input := repeat "a"%char 62 ++ lit "-b" in
  slugify input = repeat "a"%char 62 ++ lit "-" /\
  length (slugify input) = 63 /\
  JS.endsWith (lit "-") (slugify input) = true.
Proof. vm_compute. repeat split; reflexivity. Qed.

(** ** C7: the project of a host *)

Lemma arrayIncludes_spec xs s : JS.arrayIncludes xs s = true <-> In s xs.
Proof.
  unfold JS.arrayIncludes. rewrite existsb_exists. split.
  - intros (x & Hin & Hx). apply eqb_spec_str in Hx. subst. exact Hin.
  - intros Hin. exists s. split; [exact Hin|]. apply eqb_spec_str. reflexivity.
Qed.

Lemma lowerChar_idem c : JS.lowerChar (JS.lowerChar c) = JS.lowerChar c.
Proof. destruct c as [[] [] [] [] [] [] [] []]; vm_compute; reflexivity. Qed.

Lemma toLowerCase_idem s : JS.toLowerCase (JS.toLowerCase s) = JS.toLowerCase s.
Proof.
  unfold JS.toLowerCase. rewrite map_map. apply map_ext. apply lowerChar_idem.
Qed.

Lemma normHost_lower host : JS.toLowerCase (normHost host) = normHost host.
Proof. apply toLowerCase_idem. Qed.

Lemma normHost_truthy host : normHost host <> [] -> JS.truthy host = true.
Proof. destruct host; [intros H; exfalso; apply H; reflexivity|reflexivity]. Qed.

Lemma getProjectFromHost_unfold cfg host :
  JS.truthy host = true ->
  getProjectFromHost cfg host =
  let h := normHost host in
  let base := JS.toLowerCase (HOSTING_BASE_DOMAIN cfg) in
  if JS.arrayIncludes (MAIN_HOSTS cfg) h then None
  else if JS.eqb h base then None
  else if JS.endsWith (lit "." ++ base) h
       then Some (slugify (hd [] (JS.split "."%char
                                    (JS.sliceOffEnd (length base + 1) h))))
       else None.
Proof. intros Ht. unfold getProjectFromHost. rewrite Ht. reflexivity. Qed.

Lemma getProjectFromHost_main cfg host :
  In (normHost host) (MAIN_HOSTS cfg) \/
  normHost host = JS.toLowerCase (HOSTING_BASE_DOMAIN cfg) \/
  normHost host = HOSTING_BASE_DOMAIN cfg ->
  getProjectFromHost cfg host = None.
Proof.
  intros H. destruct (JS.truthy host) eqn:Ht;
    [|unfold getProjectFromHost; rewrite Ht; reflexivity].
  rewrite getProjectFromHost_unfold by exact Ht. cbv zeta.
  destruct (JS.arrayIncludes (MAIN_HOSTS cfg) (normHost host)) eqn:Em; [reflexivity|].
  assert (Hbase : normHost host = JS.toLowerCase (HOSTING_BASE_DOMAIN cfg)).
  { destruct H as [H|[H|H]].
    - apply arrayIncludes_spec in H. congruence.
    - exact H.
    - rewrite <- H. symmetry. apply normHost_lower. }
  rewrite <- Hbase.
  replace (JS.eqb (normHost host) (normHost host)) with true; [reflexivity|].
  symmetry. apply eqb_spec_str. reflexivity.
Qed.

Lemma getProjectFromHost_label cfg host label :
  normHost host = label ++ lit "." ++ JS.toLowerCase (HOSTING_BASE_DOMAIN cfg) ->
  ~ In "."%char label ->
  ~ In (normHost host) (MAIN_HOSTS cfg) ->
  getProjectFromHost cfg host = Some (slugify label).
Proof.
  intros Hform Hlabel Hmain.
  set (base := JS.toLowerCase (HOSTING_BASE_DOMAIN cfg)) in *.
  assert (Ht : JS.truthy host = true).
  { apply normHost_truthy. rewrite Hform. destruct label; discriminate. }
  rewrite getProjectFromHost_unfold by exact Ht. cbv zeta. fold base.
  destruct (JS.arrayIncludes (MAIN_HOSTS cfg) (normHost host)) eqn:Em.
  { apply arrayIncludes_spec in Em. contradiction. }
  rewrite Hform.
  assert (Hne : JS.eqb (label ++ lit "." ++ base) base = false).
  { apply eqb_false_str. intros Heq. apply (f_equal (@length ascii)) in Heq.
    rewrite !length_app in Heq. simpl in Heq. lia. }
  rewrite Hne.
  assert (Hends : JS.endsWith (lit "." ++ base) (label ++ lit "." ++ base) = true).
  { apply endsWith_spec. exists label. reflexivity. }
  rewrite Hends. f_equal. f_equal.
  assert (Hcut : JS.sliceOffEnd (length base + 1) (label ++ lit "." ++ base) = label).
  { unfold JS.sliceOffEnd. rewrite !length_app. simpl length.
    replace (length label + (1 + length base) - (length base + 1))
      with (length label + 0) by lia.
    rewrite firstn_app_2. simpl. apply app_nil_r. }
  rewrite Hcut, split_no_sep by exact Hlabel. reflexivity.
Qed.

Lemma getProjectFromHost_other cfg host :
  JS.endsWith (lit "." ++ JS.toLowerCase (HOSTING_BASE_DOMAIN cfg)) (normHost host) = false ->
  getProjectFromHost cfg host = None.
Proof.
  intros H. destruct (JS.truthy host) eqn:Ht;
    [|unfold getProjectFromHost; rewrite Ht; reflexivity].
  rewrite getProjectFromHost_unfold by exact Ht. cbv zeta. rewrite H.
  destruct (JS.arrayIncludes _ _); [reflexivity|].
  destruct (JS.eqb _ _); reflexivity.
Qed.

(** C7, as stated, fails: under the default configuration the host
    [www.quick-stage.app] has the form [<label>.<baseDomain>] with the label
    [www], whose slug [www] is not empty, and it resolves to no project,
    because it is one of the main hosts. *)
Lemma getProjectFromHost_www_is_main :
  let host := lit "www.quick-stage.app" in
  host = lit "www" ++ lit "." ++ HOSTING_BASE_DOMAIN defaultConfig /\
  slugify (lit "www") = lit "www" /\
  getProjectFromHost defaultConfig host = None.
Proof. vm_compute. repeat split; reflexivity. Qed.

(** C7 (amended): [getProjectFromHost] returns no project for every host
    that, in lower case and without its port, is a configured main host or
    the base domain; for every host of the form [<label>.<baseDomain>] that
    is not a configured main host, with a label without dots, it returns the
    slug of the label, which the caller takes for no project exactly when it
    is empty; for every host that does not end in [.<baseDomain>] it returns
    no project. *)
Theorem getProjectFromHost_cases (cfg : Config) (host : str) :
  let h := normHost host in
  let base := JS.toLowerCase (HOSTING_BASE_DOMAIN cfg) in
  (In h (MAIN_HOSTS cfg) \/ h = base \/ h = HOSTING_BASE_DOMAIN cfg ->
   getProjectFromHost cfg host = None) /\
  (forall label,
     h = label ++ lit "." ++ base -> ~ In "."%char label ->
     ~ In h (MAIN_HOSTS cfg) ->
     getProjectFromHost cfg host = Some (slugify label) /\
     (noProject (getProjectFromHost cfg host) = true <-> slugify label = [])) /\
  (JS.endsWith (lit "." ++ base) h = false ->
   getProjectFromHost cfg host = None).
Proof.
  cbv zeta. split; [apply getProjectFromHost_main|].
  split; [|apply getProjectFromHost_other].
  intros label Hform Hlabel Hmain.
  rewrite (getProjectFromHost_label cfg host label Hform Hlabel Hmain).
  split; [reflexivity|]. simpl.
  destruct (slugify label); simpl; split; congruence.
Qed.

Lemma getProjectFromHost_cases_witness :
  getProjectFromHost defaultConfig (lit "quick-stage.app:443") = None /\
  getProjectFromHost defaultConfig (lit "My_Site.Quick-Stage.app:8080") =
    Some (lit "my-site") /\
  getProjectFromHost defaultConfig (lit "___.quick-stage.app") = Some [] /\
  getProjectFromHost defaultConfig (lit "example.com") = None.
Proof.
  pose proof (getProjectFromHost_cases defaultConfig (lit "quick-stage.app:443"))
    as (H1 & _ & _).
  pose proof (getProjectFromHost_cases defaultConfig (lit "My_Site.Quick-Stage.app:8080"))
    as (_ & H2 & _).
  pose proof (getProjectFromHost_cases defaultConfig (lit "___.quick-stage.app"))
    as (_ & H3 & _).
  pose proof (getProjectFromHost_cases defaultConfig (lit "example.com"))
    as (_ & _ & H4).
  split; [apply H1; left; vm_compute; auto|].
  split; [|split].
  - refine (proj1 (H2 (lit "my_site") _ _ _)).
    + vm_compute. reflexivity.
    + vm_compute. intuition discriminate.
    + vm_compute. intuition discriminate.
  - refine (proj1 (H3 (lit "___") _ _ _)).
    + vm_compute. reflexivity.
    + vm_compute. intuition discriminate.
    + vm_compute. intuition discriminate.
  - apply H4. vm_compute. reflexivity.
Defined.

(** ** Ingestion *)

Section Ingestion.

Context (mime_lookup : str -> option str) (cfg : Config) (faults : Faults).

Lemma loopBody_skip slug st e :
  uploadable e = false ->
  loopBody mime_lookup faults slug st e = Completed (skipOne st).
Proof.
  unfold uploadable, loopBody, relPathOf.
  destruct (type e); [|reflexivity].
  intros H. apply negb_false_iff in H. rewrite H. reflexivity.
Qed.

(** What the loop does with an entry it uploads: one put at the key of
    the entry. *)
Lemma loopBody_upload slug st e :
  uploadable e = true ->
  loopBody mime_lookup faults slug st e =
    if putFails faults (keyOf slug e)
    then Threw StoreFailure
           {| uploaded := uploaded st; skipped := skipped st; bucket := bucket st;
              events := afterPut (keyOf slug e) e st |}
    else Completed
           {| uploaded := S (uploaded st); skipped := skipped st;
              bucket := <[keyOf slug e := objectOf mime_lookup e]> (bucket st);
              events := afterPut (keyOf slug e) e st |}.
Proof.
  unfold uploadable, loopBody, relPathOf, putObject, keyOf, objectOf, afterPut, relPathOf.
  destruct (type e); [|discriminate].
  intros H. apply negb_true_iff in H. rewrite H.
  destruct (putFails faults _); reflexivity.
Qed.

Lemma forEntries_counts slug files : forall st st',
  forEntries mime_lookup faults slug st files = Completed st' ->
  uploaded st' = uploaded st + length (List.filter uploadable files) /\
  skipped st' = skipped st + length (List.filter (fun e => negb (uploadable e)) files) /\
  uploaded st' + skipped st' = uploaded st + skipped st + length files.
Proof.
  induction files as [|e rest IH]; intros st st' Hrun.
  - injection Hrun as <-. simpl. lia.
  - cbn [forEntries] in Hrun. cbn [List.filter length].
    destruct (uploadable e) eqn:Eu.
    + rewrite loopBody_upload in Hrun by exact Eu.
      destruct (putFails faults (keyOf slug e)); [discriminate|].
      apply IH in Hrun. simpl in *. lia.
    + rewrite loopBody_skip in Hrun by exact Eu.
      apply IH in Hrun. simpl in *. lia.
Qed.

(** The loop runs to its end when no put fails. *)
Lemma forEntries_completes slug files : forall st,
  (forall e, In e files -> putFails faults (keyOf slug e) = false) ->
  exists st', forEntries mime_lookup faults slug st files = Completed st'.
Proof.
  induction files as [|e rest IH]; intros st Hok; [exists st; reflexivity|].
  cbn [forEntries]. destruct (uploadable e) eqn:Eu.
  - rewrite loopBody_upload by exact Eu.
    rewrite (Hok e (or_introl eq_refl)). apply IH. intros; apply Hok; right; assumption.
  - rewrite loopBody_skip by exact Eu. apply IH. intros; apply Hok; right; assumption.
Qed.

(** The bucket after the loop is the bucket before it with a list of puts
    applied, each for an uploadable entry at the key of that entry; the
    list, the counts and the events do not depend on the bucket. *)
Lemma forEntries_puts slug files : forall st,
  exists puts,
    Forall (fun kv => exists e, In e files /\ uploadable e = true /\
                                kv = (keyOf slug e, objectOf mime_lookup e)) puts /\
    forall b, forEntries mime_lookup faults slug (withBucket b st) files =
              resultWithBucket (applyPuts puts b)
                (forEntries mime_lookup faults slug st files).
Proof.
  induction files as [|e rest IH]; intros st.
  - exists []. split; [constructor|]. reflexivity.
  - cbn [forEntries]. destruct (uploadable e) eqn:Eu.
    + rewrite loopBody_upload by exact Eu.
      destruct (putFails faults (keyOf slug e)) eqn:Ef.
      * exists []. split; [constructor|]. intros b.
        rewrite loopBody_upload, Ef by exact Eu. reflexivity.
      * match goal with
        | |- context [forEntries _ _ _ ?s rest] => destruct (IH s) as (puts & Hall & Hrun)
        end.
        exists ((keyOf slug e, objectOf mime_lookup e) :: puts). split.
        -- constructor; [exists e; simpl; auto|].
           eapply List.Forall_impl; [|exact Hall].
           intros kv (e' & ? & ? & ?). exists e'. simpl. auto.
        -- intros b. rewrite loopBody_upload, Ef by exact Eu.
           exact (Hrun (<[keyOf slug e := objectOf mime_lookup e]> b)).
    + rewrite loopBody_skip by exact Eu.
      destruct (IH (skipOne st)) as (puts & Hall & Hrun).
      exists puts. split.
      * eapply List.Forall_impl; [|exact Hall].
        intros kv (e' & ? & ? & ?). exists e'. simpl. auto.
      * intros b. rewrite loopBody_skip by exact Eu. apply Hrun.
Qed.

(** Every event of the loop belongs to an uploadable entry. *)
Lemma forEntries_events slug files : forall st ev,
  In ev (events (stateOf (forEntries mime_lookup faults slug st files))) ->
  In ev (events st) \/
  exists e, In e files /\ uploadable e = true /\
            (ev = Extracted (path e) \/ ev = PutSent (keyOf slug e)).
Proof.
  induction files as [|e rest IH]; intros st ev Hin; [left; exact Hin|].
  cbn [forEntries] in Hin.
  assert (Hnew : In ev (events st ++ [Extracted (path e); PutSent (keyOf slug e)]) ->
                 uploadable e = true ->
                 In ev (events st) \/
                 exists e0, In e0 (e :: rest) /\ uploadable e0 = true /\
                   (ev = Extracted (path e0) \/ ev = PutSent (keyOf slug e0))).
  { intros H Eu. apply in_app_or in H as [H|H]; [left; exact H|].
    right. exists e. split; [left; reflexivity|]. split; [exact Eu|].
    destruct H as [<-|[<-|[]]]; auto. }
  destruct (uploadable e) eqn:Eu.
  - rewrite loopBody_upload in Hin by exact Eu.
    destruct (putFails faults (keyOf slug e)).
    + simpl in Hin. apply Hnew; auto.
    + apply IH in Hin as [Hin|(e' & ? & ? & ?)].
      * apply Hnew; auto.
      * right. exists e'. split; [right; assumption|auto].
  - rewrite loopBody_skip in Hin by exact Eu.
    apply IH in Hin as [Hin|(e' & ? & ? & ?)]; [left; exact Hin|].
    right. exists e'. split; [right; assumption|auto].
Qed.

End Ingestion.

(** ** Buckets *)

Lemma applyPuts_union (puts : list (str * Object)) : forall b : Bucket,
  applyPuts puts b = list_to_map (rev puts) ∪ b.
Proof.
  induction puts as [|[k v] ps IH]; intros b.
  - simpl. rewrite (left_id_L ∅ (∪)). reflexivity.
  - change (applyPuts ((k, v) :: ps) b) with (applyPuts ps (<[k := v]> b)).
    rewrite IH. simpl rev. rewrite list_to_map_app. simpl list_to_map.
    rewrite insert_empty, <- (assoc_L (∪)), <- insert_union_singleton_l.
    reflexivity.
Qed.

(** Overwriting: the same puts a second time change nothing. *)
Lemma applyPuts_idem (puts : list (str * Object)) (b : Bucket) :
  applyPuts puts (applyPuts puts b) = applyPuts puts b.
Proof.
  rewrite !applyPuts_union, (assoc_L (∪)), (idemp_L (∪)). reflexivity.
Qed.

Lemma applyPuts_lookup_other (puts : list (str * Object)) (k : str) : forall b : Bucket,
  Forall (fun kv => kv.1 <> k) puts -> applyPuts puts b !! k = b !! k.
Proof.
  induction puts as [|[k' v] ps IH]; intros b Hall; [reflexivity|].
  inversion Hall as [|? ? Hk Hps]; subst.
  change (applyPuts ((k', v) :: ps) b) with (applyPuts ps (<[k' := v]> b)).
  rewrite IH by exact Hps. apply lookup_insert_ne. exact Hk.
Qed.

Lemma applyPuts_changed (puts : list (str * Object)) (k : str) (b : Bucket) :
  applyPuts puts b !! k <> b !! k -> exists kv, In kv puts /\ kv.1 = k.
Proof.
  intros Hne.
  destruct (existsb (fun kv => JS.eqb kv.1 k) puts) eqn:E.
  - apply existsb_exists in E as (kv & Hin & Hk). apply eqb_spec_str in Hk. eauto.
  - exfalso. apply Hne, applyPuts_lookup_other. apply List.Forall_forall.
    intros kv Hin Hk.
    assert (Ht : existsb (fun kv => JS.eqb kv.1 k) puts = true).
    { apply existsb_exists. exists kv. split; [exact Hin|]. apply eqb_spec_str, Hk. }
    congruence.
Qed.

Lemma safeJoinPosix_namespace slug p :
  Forall (fun w => keepPart w = true) (segments slug) ->
  inNamespace slug (safeJoinPosix (SITES_PREFIX ++ slug) p).
Proof.
  intros Hslug. rewrite (proj1 (safeJoinPosix_key slug p Hslug)).
  apply joined_in_namespace, keptParts_good.
Qed.

Lemma namespace_starts_with_sites slug key :
  inNamespace slug key -> exists rest, key = SITES_PREFIX ++ rest.
Proof.
  unfold inNamespace, namespaceRoot.
  intros [->|(rest & _ & ->)]; [exists slug; reflexivity|].
  exists (slug ++ lit "/" ++ rest). rewrite <- app_assoc. reflexivity.
Qed.

Lemma namespace_not_meta slug key name :
  inNamespace slug key -> key <> META_PREFIX ++ name.
Proof.
  intros Hns Heq. apply namespace_starts_with_sites in Hns as [rest ->].
  discriminate.
Qed.

(** ** The upload handler *)

Section Upload.

Context (mime_lookup : str -> option str) (cfg : Config) (faults : Faults).

(** The handler either answers before the loop, with the bucket as it was
    and nothing done, or runs the loop over at most 2000 entries. *)
Lemma uploadHandler_cases b slugParam file :
  let slug := slugify slugParam in
  let r := uploadHandler mime_lookup cfg faults b slugParam file in
  (r.1.2 = b /\ r.2 = [] /\ exists code msg, r.1.1 = json code msg) \/
  (exists files,
     JS.truthy slug = true /\ projectExists faults b slug = true /\
     file = Some (Readable files) /\ length files <= 2000 /\
     let run := forEntries mime_lookup faults slug (startOf b) files in
     r = (responseOf cfg slug run, bucket (stateOf run), events (stateOf run))).
Proof.
  cbv zeta. unfold uploadHandler.
  destruct (JS.truthy (slugify slugParam)) eqn:Et; simpl negb; cbv iota;
    [|left; simpl; eauto].
  destruct (projectExists faults b (slugify slugParam)) eqn:Ep; simpl negb; cbv iota;
    [|left; simpl; eauto].
  destruct file as [[|files]|]; [left; simpl; eauto| |left; simpl; eauto].
  destruct (2000 <? length files) eqn:El; [left; simpl; eauto|].
  right. exists files. apply Nat.ltb_ge in El.
  repeat (split; [reflexivity || assumption|]).
  fold (startOf b).
  destruct (forEntries mime_lookup faults (slugify slugParam) (startOf b) files);
    reflexivity.
Qed.

Lemma run_bucket slug b files :
  exists puts,
    Forall (fun kv => exists e, In e files /\ uploadable e = true /\
                                kv = (keyOf slug e, objectOf mime_lookup e)) puts /\
    forall b', forEntries mime_lookup faults slug (startOf b') files =
               resultWithBucket (applyPuts puts b')
                 (forEntries mime_lookup faults slug (startOf b) files).
Proof. exact (forEntries_puts mime_lookup faults slug files (startOf b)). Qed.

Lemma stateOf_resultWithBucket b r : bucket (stateOf (resultWithBucket b r)) = b.
Proof. destruct r; reflexivity. Qed.

Lemma responseOf_resultWithBucket slug b r :
  responseOf cfg slug (resultWithBucket b r) = responseOf cfg slug r.
Proof. destruct r; reflexivity. Qed.

Lemma events_resultWithBucket b r :
  events (stateOf (resultWithBucket b r)) = events (stateOf r).
Proof. destruct r; reflexivity. Qed.

(** The loop changes the bucket at keys of the namespace only. *)
Lemma run_changes_namespace_only slug b files k :
  Forall (fun w => keepPart w = true) (segments slug) ->
  bucket (stateOf (forEntries mime_lookup faults slug (startOf b) files)) !! k <> b !! k ->
  inNamespace slug k.
Proof.
  intros Hslug Hne.
  destruct (run_bucket slug b files) as (puts & Hputs & Hrun).
  rewrite (Hrun b), stateOf_resultWithBucket in Hne.
  apply applyPuts_changed in Hne as (kv & Hin & <-).
  rewrite List.Forall_forall in Hputs.
  destruct (Hputs kv Hin) as (e & _ & _ & ->). simpl.
  apply safeJoinPosix_namespace. exact Hslug.
Qed.

Lemma run_puts_in_namespace slug b files k :
  Forall (fun w => keepPart w = true) (segments slug) ->
  In k (putKeys (events (stateOf (forEntries mime_lookup faults slug (startOf b) files)))) ->
  inNamespace slug k.
Proof.
  intros Hslug Hin. unfold putKeys in Hin.
  apply in_flat_map in Hin as (ev & Hev & Hk).
  apply forEntries_events in Hev as [Hev|(e & _ & _ & [-> | ->])].
  - destruct Hev.
  - destruct Hk.
  - destruct Hk as [<-|Hk]; [|destruct Hk].
    apply safeJoinPosix_namespace. exact Hslug.
Qed.

End Upload.

Section UploadClaims.

Context (mime_lookup : str -> option str) (cfg : Config) (faults : Faults).

Lemma uploadHandler_loop b slugParam files :
  JS.truthy (slugify slugParam) = true ->
  projectExists faults b (slugify slugParam) = true ->
  length files <= 2000 ->
  let run := forEntries mime_lookup faults (slugify slugParam) (startOf b) files in
  uploadHandler mime_lookup cfg faults b slugParam (Some (Readable files)) =
  (responseOf cfg (slugify slugParam) run, bucket (stateOf run), events (stateOf run)).
Proof.
  intros Ht Hp Hl. cbv zeta. unfold uploadHandler. rewrite Ht, Hp. simpl negb. cbv iota.
  apply Nat.ltb_ge in Hl. rewrite Hl. fold (startOf b).
  destruct (forEntries mime_lookup faults (slugify slugParam) (startOf b) files);
    reflexivity.
Qed.

Lemma projectExists_same (b1 b2 : Bucket) slug :
  b1 !! (META_PREFIX ++ slug ++ lit ".json") = b2 !! (META_PREFIX ++ slug ++ lit ".json") ->
  projectExists faults b1 slug = projectExists faults b2 slug.
Proof. intros H. unfold projectExists, headObject. rewrite H. reflexivity. Qed.

Lemma skip_non_file_or_parent e :
  type e = Directory \/ hasParentSegment (relPathOf e) = true -> uploadable e = false.
Proof.
  unfold uploadable. intros [->|H]; [reflexivity|].
  destruct (type e); [|reflexivity].
  rewrite (hasParentSegment_includes _ H). reflexivity.
Qed.

(** C2 (amended): whatever the slug and the archive, the upload handler
    changes the bucket only at the key [sites/<slug>] and at keys that
    start with [sites/<slug>/], and sends puts only for such keys; the
    loop passes over every entry that is not a
    file and every entry whose path, without its leading slashes, has a
    parent-directory segment, counting it as skipped and leaving the
    bucket as it was; the counts of a successful response add up to the
    number of entries, and the response is successful when the project
    exists, the archive has at most 2000 entries and no put fails. *)
Theorem upload_only_in_namespace (b : Bucket) (slugParam : str) (file : option ZipFile) :
  let slug := slugify slugParam in
  let r := uploadHandler mime_lookup cfg faults b slugParam file in
  (forall k, r.1.2 !! k <> b !! k -> inNamespace slug k) /\
  (forall k, In k (putKeys r.2) -> inNamespace slug k) /\
  (forall st e,
     type e = Directory \/ hasParentSegment (relPathOf e) = true ->
     loopBody mime_lookup faults slug st e = Completed (skipOne st)) /\
  (forall files msg u s url,
     file = Some (Readable files) -> upBody r.1.1 = Success msg u s url ->
     u + s = length files /\
     u = length (List.filter uploadable files) /\
     s = length (List.filter (fun e => negb (uploadable e)) files)) /\
  (forall files,
     JS.truthy slug = true -> projectExists faults b slug = true ->
     file = Some (Readable files) -> length files <= 2000 ->
     (forall e, In e files -> putFails faults (keyOf slug e) = false) ->
     exists u s, upBody r.1.1 = Success (lit "Uploaded to R2") u s
                   (lit "https://" ++ slug ++ lit "." ++ HOSTING_BASE_DOMAIN cfg ++ lit "/")
                 /\ upStatus r.1.1 = 200).
Proof.
  cbv zeta.
  pose proof (uploadHandler_cases mime_lookup cfg faults b slugParam file) as Hcases.
  cbv zeta in Hcases.
  split; [|split; [|split; [|split]]].
  - intros k Hk.
    destruct Hcases as [(Hb & _ & _)|(files & Ht & _ & _ & _ & Hr)].
    + rewrite Hb in Hk. congruence.
    + rewrite Hr in Hk. simpl in Hk.
      eapply run_changes_namespace_only; [apply slugify_segments, Ht|exact Hk].
  - intros k Hk.
    destruct Hcases as [(_ & He & _)|(files & Ht & _ & _ & _ & Hr)].
    + rewrite He in Hk. destruct Hk.
    + rewrite Hr in Hk. simpl in Hk.
      eapply run_puts_in_namespace; [apply slugify_segments, Ht|exact Hk].
  - intros st e He. apply loopBody_skip, skip_non_file_or_parent, He.
  - intros files msg u s url Hfile Hbody.
    destruct Hcases as [(_ & _ & code & m & Hr)|(files' & _ & _ & Hf' & _ & Hr)].
    + rewrite Hr in Hbody. discriminate.
    + rewrite Hfile in Hf'. injection Hf' as <-.
      rewrite Hr in Hbody. simpl in Hbody.
      destruct (forEntries _ _ _ _ _) as [st'|] eqn:Erun; [|discriminate].
      injection Hbody as _ <- <- _.
      apply forEntries_counts in Erun. simpl in Erun. lia.
  - intros files Ht Hp -> Hl Hok.
    rewrite uploadHandler_loop by assumption. simpl.
    destruct (forEntries_completes mime_lookup faults (slugify slugParam) files
                (startOf b) Hok) as [st' ->].
    simpl. eauto.
Qed.

(** C4: an archive of more than 2000 entries leaves the bucket as it was
    and nothing is extracted or put; the response is a client error, and
    for a project that exists it is the 400 with the fixed message. *)
Theorem upload_too_many_entries (b : Bucket) (slugParam : str) (files : list Entry) :
  2000 < length files ->
  let r := uploadHandler mime_lookup cfg faults b slugParam (Some (Readable files)) in
  r.1.2 = b /\ r.2 = [] /\
  (upStatus r.1.1 = 400 \/ upStatus r.1.1 = 404) /\
  (JS.truthy (slugify slugParam) = true ->
   projectExists faults b (slugify slugParam) = true ->
   r.1.1 = json 400 (lit "Zip has too many files (max 2000).")).
Proof.
  intros Hlen. cbv zeta. unfold uploadHandler.
  apply Nat.ltb_lt in Hlen. rewrite Hlen.
  destruct (JS.truthy (slugify slugParam)); simpl negb; cbv iota;
    [|simpl; repeat split; auto; discriminate].
  destruct (projectExists faults b (slugify slugParam)); simpl negb; cbv iota;
    simpl; repeat split; auto; discriminate.
Qed.

(** C9: uploading the same archive for the same project a second time,
    on the bucket the first upload left, leaves that bucket as it is and
    gives the same response, with the same counts. *)
Theorem upload_twice_same (b : Bucket) (slugParam : str) (file : option ZipFile) :
  let first := uploadHandler mime_lookup cfg faults b slugParam file in
  let second := uploadHandler mime_lookup cfg faults first.1.2 slugParam file in
  second.1.2 = first.1.2 /\ second.1.1 = first.1.1 /\ second = first.
Proof.
  cbv zeta.
  assert (Hsame : uploadHandler mime_lookup cfg faults
                    (uploadHandler mime_lookup cfg faults b slugParam file).1.2
                    slugParam file =
                  uploadHandler mime_lookup cfg faults b slugParam file).
  { destruct (uploadHandler_cases mime_lookup cfg faults b slugParam file)
      as [(Hb & _ & _)|(files & Ht & Hp & -> & Hl & Hr)]; cbv zeta in *.
    - rewrite Hb. reflexivity.
    - rewrite Hr. cbn [fst snd].
      destruct (run_bucket mime_lookup faults (slugify slugParam) b files)
        as (puts & Hputs & Hrun).
      set (run := forEntries mime_lookup faults (slugify slugParam) (startOf b) files) in *.
      assert (Hb1 : bucket (stateOf run) = applyPuts puts b).
      { unfold run at 1. rewrite (Hrun b). apply stateOf_resultWithBucket. }
      assert (Hp1 : projectExists faults (bucket (stateOf run)) (slugify slugParam) = true).
      { rewrite <- Hp. apply projectExists_same. rewrite Hb1.
        apply applyPuts_lookup_other. apply List.Forall_forall.
        intros kv Hin. rewrite List.Forall_forall in Hputs.
        destruct (Hputs kv Hin) as (e & _ & _ & ->). simpl.
        apply (namespace_not_meta (slugify slugParam)).
        apply safeJoinPosix_namespace, slugify_segments, Ht. }
      rewrite uploadHandler_loop by assumption. cbv zeta.
      rewrite (Hrun (bucket (stateOf run))). fold run.
      rewrite Hb1, applyPuts_idem, <- Hb1.
      rewrite responseOf_resultWithBucket, stateOf_resultWithBucket,
        events_resultWithBucket. reflexivity. }
  rewrite Hsame. auto.
Qed.

(** C10: the loop skips every file entry whose path, without its leading
    slashes, has two dots in a row anywhere: it counts the entry as
    skipped and leaves the bucket as it was.  Every path with a
    parent-directory segment is such a path, and [notes..txt] and
    [a..b/file.css] are such paths without a parent-directory segment. *)
Theorem upload_skips_double_dot (slug : str) (st : Progress) (e : Entry) :
  type e = File -> JS.includes (lit "..") (relPathOf e) = true ->
  loopBody mime_lookup faults slug st e = Completed (skipOne st) /\
  bucket (skipOne st) = bucket st /\ skipped (skipOne st) = S (skipped st) /\
  uploaded (skipOne st) = uploaded st /\
  (forall p, hasParentSegment p = true -> JS.includes (lit "..") p = true) /\
  (JS.includes (lit "..") (lit "notes..txt") = true /\
   hasParentSegment (lit "notes..txt") = false) /\
  (JS.includes (lit "..") (lit "a..b/file.css") = true /\
   hasParentSegment (lit "a..b/file.css") = false).
Proof.
  intros Hfile Hdots. split.
  - apply loopBody_skip. unfold uploadable. rewrite Hfile, Hdots. reflexivity.
  - repeat split; try reflexivity. apply hasParentSegment_includes.
Qed.

End UploadClaims.

(** C2, as stated, fails: a file entry with the path [.] is uploaded, and
    its object is put at the key [sites/demo], which does not start with
    [sites/demo/]. *)
Lemma upload_dot_entry_at_namespace_root :
  let r := uploadHandler sampleMime defaultConfig noFaults demoBucket (lit "demo")
             (Some (Readable [ {| type := File; path := lit "."; data := lit "x" |} ])) in
  upBody r.1.1 = Success (lit "Uploaded to R2") 1 0 (lit "https://demo.quick-stage.app/") /\
  r.2 = [Extracted (lit "."); PutSent (lit "sites/demo")] /\
  (objBody <$> r.1.2 !! lit "sites/demo") = Some (lit "x") /\
  JS.startsWith (lit "sites/demo/") (lit "sites/demo") = false.
Proof. vm_compute. repeat split; reflexivity. Qed.

Section UploadWitnesses.

Lemma upload_only_in_namespace_witness :
  upBody demoUpload.1.1 = Success (lit "Uploaded to R2") 1 3 (lit "https://demo.quick-stage.app/") /\
  1 + 3 = length demoArchive /\
  inNamespace (lit "demo") (lit "sites/demo/index.html") /\
  loopBody sampleMime noFaults (lit "demo") (startOf demoBucket)
    {| type := File; path := lit "../../etc/passwd"; data := lit "root" |} =
  Completed (skipOne (startOf demoBucket)).
Proof.
  pose proof (upload_only_in_namespace sampleMime defaultConfig noFaults demoBucket
                (lit "demo") (Some (Readable demoArchive))) as (_ & Hput & Hskip & Hsum & Hok).
  assert (Hbody : upBody demoUpload.1.1 =
                  Success (lit "Uploaded to R2") 1 3 (lit "https://demo.quick-stage.app/")).
  { destruct (Hok demoArchive) as (u & s & Hb & _).
    - vm_compute. reflexivity.
    - vm_compute. reflexivity.
    - reflexivity.
    - simpl. lia.
    - intros e _. reflexivity.
    - vm_compute. reflexivity. }
  split; [exact Hbody|]. split; [|split].
  - exact (proj1 (Hsum demoArchive _ 1 3 _ eq_refl Hbody)).
  - apply Hput. vm_compute. left. reflexivity.
  - apply Hskip. right. vm_compute. reflexivity.
Defined.

Lemma upload_too_many_entries_witness :
  let files := repeat {| type := File; path := lit "a.txt"; data := [] |} 2001 in
  let r := uploadHandler sampleMime defaultConfig noFaults demoBucket (lit "demo")
             (Some (Readable files)) in
  r.1.2 = demoBucket /\ r.2 = [] /\
  r.1.1 = json 400 (lit "Zip has too many files (max 2000).").
Proof.
  cbv zeta.
  destruct (upload_too_many_entries sampleMime defaultConfig noFaults demoBucket (lit "demo")
              (repeat {| type := File; path := lit "a.txt"; data := [] |} 2001))
    as (Hb & He & _ & Hresp).
  - rewrite repeat_length. lia.
  - split; [exact Hb|]. split; [exact He|].
    apply Hresp; vm_compute; reflexivity.
Defined.

Lemma upload_skips_double_dot_witness :
  loopBody sampleMime noFaults (lit "demo") (startOf demoBucket)
    {| type := File; path := lit "/notes..txt"; data := lit "n" |} =
  Completed (skipOne (startOf demoBucket)).
Proof.
  apply (upload_skips_double_dot sampleMime noFaults (lit "demo") (startOf demoBucket)
           {| type := File; path := lit "/notes..txt"; data := lit "n" |}).
  - reflexivity.
  - vm_compute. reflexivity.
Defined.

(** The two uploads of C9 on the worked data: one page stored, three
    entries skipped, both times. *)
Example upload_twice_demo :
  upBody demoUpload.1.1 = Success (lit "Uploaded to R2") 1 3 (lit "https://demo.quick-stage.app/") /\
  uploadHandler sampleMime defaultConfig noFaults demoUpload.1.2 (lit "demo")
    (Some (Readable demoArchive)) = demoUpload /\
  (objBody <$> demoUpload.1.2 !! lit "sites/demo/index.html") = Some (lit "<h1>hi</h1>").
Proof. vm_compute. repeat split; reflexivity. Qed.

End UploadWitnesses.

(** ** The serve handler *)

Section Serve.

Context (mime_lookup : str -> option str) (cfg : Config).

Lemma serveHandler_no_project faults b host reqPath :
  noProject (getProjectFromHost cfg host) = true ->
  serveHandler mime_lookup cfg faults b host reqPath = (notFound freshRes, []).
Proof.
  unfold serveHandler, noProject.
  destruct (getProjectFromHost cfg host) as [p|]; [|reflexivity].
  intros ->. reflexivity.
Qed.

(** The handler for a host that has a project, step by step. *)
Lemma serveHandler_chain faults b host reqPath project :
  getProjectFromHost cfg host = Some project -> JS.truthy project = true ->
  serveHandler mime_lookup cfg faults b host reqPath =
  let rel := relOf reqPath in
  match exactStep mime_lookup faults b project rel with
  | inl r => (r, [(Exact, baseKeyOf project rel)])
  | inr res1 =>
      match htmlStep faults b project rel res1 with
      | inl r => (r, htmlLog project rel)
      | inr res2 =>
          match spaStep cfg faults b project res2 with
          | inl r => (r, spaLog cfg project rel)
          | inr res3 => (notFound res3, spaLog cfg project rel)
          end
      end
  end.
Proof.
  intros Hp Ht. unfold serveHandler. rewrite Hp, Ht. simpl negb. cbv iota.
  unfold exactStep, htmlStep, spaStep, spaLog, htmlLog, wantsHtml, baseKeyOf,
    htmlKeyOf, indexKeyOf, prepareExact, prepareHtml, relOf.
  cbv zeta.
  set (rel := JS.dropWhile (Ascii.eqb "/"%char) _).
  destruct (swallow (attempt faults b _ _ _ freshRes)) as [r|res1]; [reflexivity|].
  destruct (negb (JS.includes _ rel) && negb (JS.endsWith _ rel));
    destruct (SPA_FALLBACK cfg);
    repeat match goal with
           | |- context [match swallow ?a with _ => _ end] => destruct (swallow a)
           end;
    reflexivity.
Qed.

End Serve.

Section ServeClaims.

Context (mime_lookup : str -> option str) (cfg : Config).

Lemma attempt_miss faults b key prepare finish res :
  hit faults b key = false ->
  exists res', swallow (attempt faults b key prepare finish res) = inr res'.
Proof.
  unfold hit, attempt, fetchObject, streamToBuffer.
  destruct (getObject faults b key) as [e|obj]; [intros _; eexists; reflexivity|].
  destruct (broken (Body obj)); [intros _; eexists; reflexivity|discriminate].
Qed.

Lemma attempt_thrown faults b key prepare finish res e :
  getObject faults b key = inl e ->
  swallow (attempt faults b key prepare finish res) = inr res.
Proof. unfold attempt, fetchObject. intros ->. reflexivity. Qed.

Lemma attempt_hit (faults : Faults) (b : Bucket) key prepare finish res o :
  b !! key = Some o -> getFails faults key = false -> readFails faults key = false ->
  swallow (attempt faults b key prepare finish res) =
  inl (send (finish (prepare {| Body := {| chunks := [objBody o]; broken := false |};
                                ContentType := objContentType o;
                                CacheControl := objCacheControl o |} res))
         (objBody o)).
Proof.
  intros Hb Hg Hr. unfold attempt, fetchObject, getObject, streamToBuffer.
  rewrite Hg, Hb, Hr. simpl. rewrite app_nil_r. reflexivity.
Qed.

Lemma attempt_agree f1 b1 f2 b2 key prepare finish res :
  agreeUpToExn (getObject f1 b1 key) (getObject f2 b2 key) ->
  swallow (attempt f1 b1 key prepare finish res) =
  swallow (attempt f2 b2 key prepare finish res).
Proof.
  unfold agreeUpToExn, attempt, fetchObject.
  destruct (getObject f1 b1 key), (getObject f2 b2 key); simpl;
    intros H; subst; tauto || reflexivity.
Qed.

Lemma attempt_status faults b key prepare finish res :
  (forall obj r, status r = 200 -> status (prepare obj r) = 200) ->
  (forall r, status r = 200 -> status (finish r) = 200) ->
  status res = 200 ->
  match swallow (attempt faults b key prepare finish res) with
  | inl r => status (sentRes r) = 200
  | inr res' => status res' = 200
  end.
Proof.
  intros Hp Hf Hres. unfold attempt.
  destruct (fetchObject faults b key) as [e|obj]; [exact Hres|].
  destruct (streamToBuffer (Body obj)); simpl; auto.
Qed.

Lemma prepareExact_status rel obj r :
  status r = 200 -> status (prepareExact mime_lookup rel obj r) = 200.
Proof.
  intros _. unfold prepareExact.
  destruct (CacheControl obj) as [cc|]; [destruct (JS.truthy cc)|]; reflexivity.
Qed.

Lemma getProjectFromHost_slug host project :
  getProjectFromHost cfg host = Some project -> exists x, project = slugify x.
Proof.
  unfold getProjectFromHost.
  destruct (negb (JS.truthy host)); [discriminate|].
  destruct (JS.arrayIncludes _ _); [discriminate|].
  destruct (JS.eqb _ _); [discriminate|].
  destruct (JS.endsWith _ _); [|discriminate].
  intros [= <-]. eexists. reflexivity.
Qed.

Lemma project_key host project (rel : str) (parts : list str) :
  getProjectFromHost cfg host = Some project -> JS.truthy project = true ->
  keptParts rel = parts ->
  baseKeyOf project rel = JS.join (lit "/") (lit "sites" :: project :: parts).
Proof.
  intros Hp Ht <-. destruct (getProjectFromHost_slug _ _ Hp) as [x ->].
  unfold baseKeyOf.
  rewrite (proj1 (safeJoinPosix_key _ rel (slugify_segments x Ht))).
  apply truthy_spec in Ht.
  rewrite (proj1 (slug_is_one_segment _ Ht (proj1 (slugify_shape x)))).
  reflexivity.
Qed.

Lemma serve_log_head faults b host reqPath project :
  getProjectFromHost cfg host = Some project -> JS.truthy project = true ->
  hd_error (serveHandler mime_lookup cfg faults b host reqPath).2 =
  Some (Exact, baseKeyOf project (relOf reqPath)).
Proof.
  intros Hp Ht. rewrite (serveHandler_chain _ _ _ _ _ _ _ Hp Ht). cbv zeta.
  unfold spaLog, htmlLog.
  destruct (exactStep _ _ _ _ _); [reflexivity|].
  destruct (htmlStep _ _ _ _ _); [destruct (wantsHtml _); reflexivity|].
  destruct (spaStep _ _ _ _ _); destruct (SPA_FALLBACK cfg), (wantsHtml _); reflexivity.
Qed.

Lemma serve_log_html faults b host reqPath key :
  In (ImplicitHtml, key) (serveHandler mime_lookup cfg faults b host reqPath).2 ->
  wantsHtml (relOf reqPath) = true.
Proof.
  destruct (noProject (getProjectFromHost cfg host)) eqn:En.
  - rewrite serveHandler_no_project by exact En. intros [].
  - unfold noProject in En.
    destruct (getProjectFromHost cfg host) as [p|] eqn:Hp; [|discriminate].
    apply negb_false_iff in En.
    rewrite (serveHandler_chain _ _ _ _ _ _ _ Hp En). cbv zeta.
    unfold spaLog, htmlLog, htmlStep, spaStep.
    destruct (wantsHtml (relOf reqPath)); [reflexivity|].
    destruct (exactStep _ _ _ _ _) as [r|res1]; [simpl; intuition discriminate|].
    destruct (SPA_FALLBACK cfg); [|simpl; intuition discriminate].
    destruct (swallow _); simpl; intuition discriminate.
Qed.

(** C5: the first key the handler fetches is the exact key; it fetches
    the [.html] key only for a relative path without a dot that does not
    end in a slash.  With [about.html] stored and no object [about], the
    request for [/about] is answered with the body of [about.html] and the
    content type [text/html; charset=utf-8]; the request for [/about/]
    fetches no [.html] key. *)
Theorem serve_implicit_html (faults : Faults) (b : Bucket) (host project : str)
    (page : Object) :
  getProjectFromHost cfg host = Some project -> JS.truthy project = true ->
  b !! (SITES_PREFIX ++ project ++ lit "/about") = None ->
  b !! (SITES_PREFIX ++ project ++ lit "/about.html") = Some page ->
  objContentType page = None \/
    objContentType page = Some (lit "text/html; charset=utf-8") ->
  getFails faults (SITES_PREFIX ++ project ++ lit "/about.html") = false ->
  readFails faults (SITES_PREFIX ++ project ++ lit "/about.html") = false ->
  let r := serveHandler mime_lookup cfg faults b host (lit "/about") in
  r.1 = send {| status := 200;
                contentType := Some (lit "text/html; charset=utf-8");
                cacheControl := None |} (objBody page) /\
  r.2 = [(Exact, SITES_PREFIX ++ project ++ lit "/about");
         (ImplicitHtml, SITES_PREFIX ++ project ++ lit "/about.html")] /\
  (forall f' b' path,
     hd_error (serveHandler mime_lookup cfg f' b' host path).2 =
     Some (Exact, baseKeyOf project (relOf path))) /\
  (forall f' b' host' path key,
     In (ImplicitHtml, key) (serveHandler mime_lookup cfg f' b' host' path).2 ->
     JS.includes (lit ".") (relOf path) = false /\
     JS.endsWith (lit "/") (relOf path) = false) /\
  (forall f' b' host' key,
     ~ In (ImplicitHtml, key) (serveHandler mime_lookup cfg f' b' host' (lit "/about/")).2).
Proof.
  intros Hp Ht Habout Hpage Hct Hget Hread. cbv zeta.
  assert (Hk1 : baseKeyOf project (lit "about") = SITES_PREFIX ++ project ++ lit "/about").
  { rewrite (project_key host project (lit "about") [lit "about"] Hp Ht) by reflexivity.
    reflexivity. }
  assert (Hk2 : htmlKeyOf project (lit "about") =
                SITES_PREFIX ++ project ++ lit "/about.html").
  { change (htmlKeyOf project (lit "about")) with (baseKeyOf project (lit "about.html")).
    rewrite (project_key host project (lit "about.html") [lit "about.html"] Hp Ht)
      by reflexivity.
    reflexivity. }
  assert (Hrun : serveHandler mime_lookup cfg faults b host (lit "/about") =
                 (send {| status := 200;
                          contentType := Some (lit "text/html; charset=utf-8");
                          cacheControl := None |} (objBody page),
                  [(Exact, SITES_PREFIX ++ project ++ lit "/about");
                   (ImplicitHtml, SITES_PREFIX ++ project ++ lit "/about.html")])).
  { rewrite (serveHandler_chain _ _ _ _ _ _ _ Hp Ht). cbv zeta.
    change (relOf (lit "/about")) with (lit "about").
    unfold exactStep. rewrite Hk1.
    rewrite (attempt_thrown faults b _ _ _ _
               (if getFails faults (SITES_PREFIX ++ project ++ lit "/about")
                then StoreFailure else NoSuchKey)).
    2:{ unfold getObject. rewrite Habout.
        destruct (getFails faults (SITES_PREFIX ++ project ++ lit "/about"));
          reflexivity. }
    unfold htmlStep, htmlLog. change (wantsHtml (lit "about")) with true. cbv iota.
    rewrite Hk1, Hk2.
    rewrite (attempt_hit faults b _ _ _ _ page Hpage Hget Hread).
    unfold prepareHtml, htmlType. simpl ContentType.
    destruct Hct as [-> | ->]; reflexivity. }
  rewrite Hrun. split; [reflexivity|]. split; [reflexivity|].
  split; [intros; apply serve_log_head; assumption|].
  split.
  - intros f' b' host' path key Hin. apply serve_log_html in Hin.
    unfold wantsHtml in Hin. apply andb_true_iff in Hin as [H1 H2].
    apply negb_true_iff in H1, H2. auto.
  - intros f' b' host' key Hin. apply serve_log_html in Hin. discriminate.
Qed.

(** C6: when the first two steps miss and the SPA fallback is on, the
    handler answers any path with the body of [sites/<project>/index.html]
    and the status 200; when the fallback is off the answer is the 404
    [Not Found]. *)
Theorem serve_spa_fallback (faults : Faults) (b : Bucket) (host reqPath project : str) :
  getProjectFromHost cfg host = Some project -> JS.truthy project = true ->
  hit faults b (baseKeyOf project (relOf reqPath)) = false ->
  (wantsHtml (relOf reqPath) = true ->
   hit faults b (htmlKeyOf project (relOf reqPath)) = false) ->
  let r := (serveHandler mime_lookup cfg faults b host reqPath).1 in
  (SPA_FALLBACK cfg = true ->
   forall index,
     b !! (SITES_PREFIX ++ project ++ lit "/index.html") = Some index ->
     getFails faults (SITES_PREFIX ++ project ++ lit "/index.html") = false ->
     readFails faults (SITES_PREFIX ++ project ++ lit "/index.html") = false ->
     status (sentRes r) = 200 /\ sentBody r = objBody index /\
     contentType (sentRes r) =
       Some (JS.orElse (objContentType index) (lit "text/html; charset=utf-8"))) /\
  (SPA_FALLBACK cfg = false ->
   status (sentRes r) = 404 /\ sentBody r = lit "Not Found" /\
   contentType (sentRes r) = Some (lit "text/plain")).
Proof.
  intros Hp Ht Hmiss1 Hmiss2. cbv zeta.
  rewrite (serveHandler_chain _ _ _ _ _ _ _ Hp Ht). cbv zeta.
  unfold exactStep.
  destruct (attempt_miss faults b _ (prepareExact mime_lookup (relOf reqPath))
              (fun res => res) freshRes Hmiss1) as [res1 ->].
  assert (Hstep2 : exists res2, htmlStep faults b project (relOf reqPath) res1 = inr res2).
  { unfold htmlStep. destruct (wantsHtml (relOf reqPath)); [|eexists; reflexivity].
    apply attempt_miss. apply Hmiss2. reflexivity. }
  destruct Hstep2 as [res2 ->]. unfold spaStep. split.
  - intros -> index Hindex Hget Hread.
    unfold indexKeyOf. rewrite (attempt_hit faults b _ _ _ _ index Hindex Hget Hread).
    simpl. auto.
  - intros ->. simpl. auto.
Qed.

(** C3 (amended): a lookup of the chain that fails makes the handler go on
    with the next step whatever was thrown, a missing object or any other
    failure of the store: the response and the keys fetched are the same
    for two stores whose lookups differ only in what they throw; the
    status is 200 or 404, never a server error; and when every lookup
    fails the answer is the 404 [Not Found]. *)
Theorem serve_failures_are_misses (f1 f2 : Faults) (b1 b2 : Bucket) (host reqPath : str) :
  (forall key, agreeUpToExn (getObject f1 b1 key) (getObject f2 b2 key)) ->
  serveHandler mime_lookup cfg f1 b1 host reqPath =
    serveHandler mime_lookup cfg f2 b2 host reqPath /\
  (forall key prepare finish res e,
     getObject f1 b1 key = inl e ->
     swallow (attempt f1 b1 key prepare finish res) = inr res) /\
  (status (sentRes (serveHandler mime_lookup cfg f1 b1 host reqPath).1) = 200 \/
   status (sentRes (serveHandler mime_lookup cfg f1 b1 host reqPath).1) = 404) /\
  ((forall key, exists e, getObject f1 b1 key = inl e) ->
   (serveHandler mime_lookup cfg f1 b1 host reqPath).1 = notFound freshRes).
Proof.
  intros Hagree.
  destruct (noProject (getProjectFromHost cfg host)) eqn:En.
  { rewrite !serveHandler_no_project by exact En.
    split; [reflexivity|]. split; [intros; eapply attempt_thrown; eassumption|].
    split; [right; reflexivity|reflexivity]. }
  unfold noProject in En.
  destruct (getProjectFromHost cfg host) as [p|] eqn:Hp; [|discriminate].
  apply negb_false_iff in En.
  rewrite !(serveHandler_chain _ _ _ _ _ _ _ Hp En). cbv zeta.
  unfold exactStep, htmlStep, spaStep.
  split; [|split; [intros; eapply attempt_thrown; eassumption|split]].
  - rewrite (attempt_agree f1 b1 f2 b2 _ _ _ _ (Hagree _)).
    destruct (swallow (attempt f2 b2 _ _ _ freshRes)) as [r|res1]; [reflexivity|].
    destruct (wantsHtml (relOf reqPath)).
    + rewrite (attempt_agree f1 b1 f2 b2 _ _ _ res1 (Hagree _)).
      destruct (swallow (attempt f2 b2 _ _ _ res1)) as [r|res2]; [reflexivity|].
      destruct (SPA_FALLBACK cfg); [|reflexivity].
      rewrite (attempt_agree f1 b1 f2 b2 _ _ _ res2 (Hagree _)). reflexivity.
    + destruct (SPA_FALLBACK cfg); [|reflexivity].
      rewrite (attempt_agree f1 b1 f2 b2 _ _ _ res1 (Hagree _)). reflexivity.
  - pose proof (attempt_status f1 b1 (baseKeyOf p (relOf reqPath))
                  (prepareExact mime_lookup (relOf reqPath)) (fun res => res) freshRes
                  (prepareExact_status (relOf reqPath)) (fun r H => H) eq_refl) as H1.
    destruct (swallow (attempt f1 b1 _ _ _ freshRes)) as [r|res1]; [left; exact H1|].
    assert (H2 : match (if wantsHtml (relOf reqPath)
                        then swallow (attempt f1 b1 (htmlKeyOf p (relOf reqPath))
                                        prepareHtml (fun res => res) res1)
                        else inr res1) with
                 | inl r => status (sentRes r) = 200
                 | inr res' => status res' = 200
                 end).
    { destruct (wantsHtml (relOf reqPath)); [|exact H1].
      apply attempt_status; auto. }
    destruct (if wantsHtml (relOf reqPath) then _ else _) as [r|res2]; [left; exact H2|].
    assert (H3 : match (if SPA_FALLBACK cfg
                        then swallow (attempt f1 b1 (indexKeyOf p) prepareHtml
                                        (setStatus 200) res2)
                        else inr res2) with
                 | inl r => status (sentRes r) = 200
                 | inr res' => status res' = 200
                 end).
    { destruct (SPA_FALLBACK cfg); [|exact H2].
      apply attempt_status; auto. }
    destruct (if SPA_FALLBACK cfg then _ else _) as [r|res3];
      [left; exact H3|right; reflexivity].
  - intros Hall.
    destruct (Hall (baseKeyOf p (relOf reqPath))) as [e1 He1].
    rewrite (attempt_thrown f1 b1 _ _ _ _ e1 He1).
    assert (H2 : (if wantsHtml (relOf reqPath)
                  then swallow (attempt f1 b1 (htmlKeyOf p (relOf reqPath))
                                  prepareHtml (fun res => res) freshRes)
                  else inr freshRes) = inr freshRes).
    { destruct (wantsHtml (relOf reqPath)); [|reflexivity].
      destruct (Hall (htmlKeyOf p (relOf reqPath))) as [e2 He2].
      exact (attempt_thrown f1 b1 _ _ _ _ e2 He2). }
    rewrite H2.
    destruct (SPA_FALLBACK cfg); [|reflexivity].
    destruct (Hall (indexKeyOf p)) as [e3 He3].
    rewrite (attempt_thrown f1 b1 _ _ _ _ e3 He3). reflexivity.
Qed.

End ServeClaims.

(** C3, as stated, fails: the fetch of the stored stylesheet fails with a
    store failure, not a missing object, and the handler goes on down the
    chain: with the SPA fallback on it answers 200 with the index page,
    with the fallback off it answers 404; in neither case 500. *)
Lemma serve_store_failure_falls_through :
  getObject cssUnreachable demoSite (lit "sites/demo/app.css") = inl StoreFailure /\
  serveHandler sampleMime defaultConfig cssUnreachable demoSite demoHost (lit "/app.css") =
    (send {| status := 200; contentType := Some (lit "text/html; charset=utf-8");
             cacheControl := None |} (lit "<h1>home</h1>"),
     [(Exact, lit "sites/demo/app.css"); (SpaIndex, lit "sites/demo/index.html")]) /\
  serveHandler sampleMime noSpa cssUnreachable demoSite demoHost (lit "/app.css") =
    (notFound freshRes, [(Exact, lit "sites/demo/app.css")]) /\
  status (sentRes (notFound freshRes)) = 404.
Proof. vm_compute. repeat split; reflexivity. Qed.

Lemma serve_failures_are_misses_witness :
  serveHandler sampleMime defaultConfig cssUnreachable demoSite demoHost (lit "/app.css") =
  serveHandler sampleMime defaultConfig noFaults
    (delete (lit "sites/demo/app.css") demoSite) demoHost (lit "/app.css").
Proof.
  refine (proj1 (serve_failures_are_misses sampleMime defaultConfig cssUnreachable noFaults
                   demoSite (delete (lit "sites/demo/app.css") demoSite)
                   demoHost (lit "/app.css") _)).
  intros key. unfold getObject, cssUnreachable, noFaults. cbn [getFails readFails].
  destruct (JS.eqb key (lit "sites/demo/app.css")) eqn:E.
  - apply eqb_spec_str in E. subst key. rewrite lookup_delete_eq. exact I.
  - apply eqb_false_str in E.
    rewrite lookup_delete_ne by (intros Heq; apply E; symmetry; exact Heq).
    unfold agreeUpToExn. destruct (demoSite !! key); [reflexivity|exact I].
Defined.

Lemma serve_implicit_html_witness :
  serveHandler sampleMime defaultConfig noFaults aboutSite demoHost (lit "/about") =
  (send {| status := 200; contentType := Some (lit "text/html; charset=utf-8");
           cacheControl := None |} (lit "<h1>about</h1>"),
   [(Exact, lit "sites/demo/about"); (ImplicitHtml, lit "sites/demo/about.html")]).
Proof.
  destruct (serve_implicit_html sampleMime defaultConfig noFaults aboutSite demoHost
              (lit "demo") (htmlObject (lit "<h1>about</h1>")))
    as (Hresp & Hlog & _).
  - vm_compute. reflexivity.
  - reflexivity.
  - vm_compute. reflexivity.
  - vm_compute. reflexivity.
  - right. reflexivity.
  - reflexivity.
  - reflexivity.
  - apply injective_projections; [exact Hresp|exact Hlog].
Defined.

Lemma serve_spa_fallback_witness :
  (let r := (serveHandler sampleMime defaultConfig noFaults demoSite demoHost
               (lit "/missing/page")).1 in
   status (sentRes r) = 200 /\ sentBody r = lit "<h1>home</h1>") /\
  (let r := (serveHandler sampleMime noSpa noFaults demoSite demoHost
               (lit "/missing/page")).1 in
   status (sentRes r) = 404 /\ sentBody r = lit "Not Found").
Proof.
  cbv zeta. split.
  - destruct (serve_spa_fallback sampleMime defaultConfig noFaults demoSite demoHost
                (lit "/missing/page") (lit "demo")) as [Hon _].
    + vm_compute. reflexivity.
    + reflexivity.
    + vm_compute. reflexivity.
    + intros _. vm_compute. reflexivity.
    + destruct (Hon eq_refl (htmlObject (lit "<h1>home</h1>"))) as (Hs & Hb & _).
      * vm_compute. reflexivity.
      * reflexivity.
      * reflexivity.
      * split; [exact Hs|exact Hb].
  - destruct (serve_spa_fallback sampleMime noSpa noFaults demoSite demoHost
                (lit "/missing/page") (lit "demo")) as [_ Hoff].
    + vm_compute. reflexivity.
    + reflexivity.
    + vm_compute. reflexivity.
    + intros _. vm_compute. reflexivity.
    + destruct (Hoff eq_refl) as (Hs & Hb & _). split; [exact Hs|exact Hb].
Defined.


(** ** More on [slugify] *)

Lemma dropWhile_id (p : ascii -> bool) (s : str) :
  Forall (fun c => p c = false) s -> JS.dropWhile p s = s.
Proof. destruct 1 as [|c t Hc _]; [reflexivity|]. simpl. rewrite Hc. reflexivity. Qed.

Lemma dropWhileEnd_id (p : ascii -> bool) (s : str) :
  Forall (fun c => p c = false) s -> JS.dropWhileEnd p s = s.
Proof.
  intros H. unfold JS.dropWhileEnd. rewrite dropWhile_id; [apply rev_involutive|].
  apply Forall_rev. exact H.
Qed.

Lemma slugChar_not_space c : isSlugChar c = true -> JS.isSpace c = false.
Proof. destruct c as [[] [] [] [] [] [] [] []]; vm_compute; congruence. Qed.

Lemma replaceRuns_id cls r (s : str) :
  Forall (fun c => cls c = false) s -> JS.replaceRuns cls r s = s.
Proof.
  induction 1 as [|c t Hc _ IH]; [reflexivity|].
  rewrite replaceRuns_cons, Hc, IH. reflexivity.
Qed.

Lemma replaceRuns_no_double_id c (s : str) :
  JS.includes [c; c] s = false -> JS.replaceRuns (Ascii.eqb c) c s = s.
Proof.
  induction s as [|x t IH]; intros Hno; [reflexivity|].
  cbn [JS.includes] in Hno. apply orb_false_iff in Hno as [Hhead Htail].
  rewrite replaceRuns_cons, (IH Htail).
  destruct (Ascii.eqb c x) eqn:Ex; [|reflexivity].
  apply Ascii.eqb_eq in Ex. subst x.
  destruct t as [|d t']; [reflexivity|].
  cbn in Hhead. rewrite Ascii.eqb_refl in Hhead. simpl in Hhead.
  rewrite andb_true_r in Hhead. rewrite Hhead. reflexivity.
Qed.

Lemma endsWith_char c (s : str) :
  JS.endsWith [c] s = match rev s with d :: _ => Ascii.eqb c d | [] => false end.
Proof.
  unfold JS.endsWith. simpl. destruct (rev s); [reflexivity|].
  apply andb_true_r.
Qed.

Lemma stripEdges_no_head c (s : str) :
  hd_error s <> Some c ->
  JS.stripEdges c s = if JS.endsWith [c] s then removelast s else s.
Proof.
  intros Hh. unfold JS.stripEdges.
  assert (H1 : match s with
               | d :: t => if Ascii.eqb d c then t else s
               | [] => []
               end = s).
  { destruct s as [|d t]; [reflexivity|].
    destruct (Ascii.eqb d c) eqn:E; [|reflexivity].
    apply Ascii.eqb_eq in E. subst d. exfalso. apply Hh. reflexivity. }
  rewrite H1, endsWith_char.
  destruct (rev s) as [|d t] eqn:Er.
  - destruct s; [reflexivity|].
    apply (f_equal (@length ascii)) in Er. rewrite length_rev in Er. discriminate.
  - rewrite (Ascii.eqb_sym c d). destruct (Ascii.eqb d c); [|reflexivity].
    assert (Hs : s = rev t ++ [d]).
    { rewrite <- (rev_involutive s), Er. reflexivity. }
    rewrite Hs. symmetry. apply removelast_last.
Qed.

Lemma slugify_pipeline (input : str) :
  slugify input =
  JS.sliceTo 63
    (JS.stripEdges "-"%char
       (JS.replaceRuns (Ascii.eqb "-"%char) "-"%char
          (JS.replaceRuns (fun c => negb (isSlugChar c)) "-"%char
             (JS.toLowerCase (JS.trim input))))).
Proof. destruct input; reflexivity. Qed.

Lemma slugify_again (input : str) :
  slugify (slugify input) =
  if JS.endsWith (lit "-") (slugify input)
  then removelast (slugify input) else slugify input.
Proof.
  destruct (slugify_shape input) as (Hchars & Hlow & Hlen & Hhead & Hdbl).
  set (s := slugify input) in *.
  rewrite (slugify_pipeline s).
  assert (Htrim : JS.trim s = s).
  { unfold JS.trim.
    assert (Hsp : Forall (fun c => JS.isSpace c = false) s).
    { eapply List.Forall_impl; [|exact Hchars]. apply slugChar_not_space. }
    rewrite (dropWhile_id _ _ Hsp). apply dropWhileEnd_id, Hsp. }
  rewrite Htrim, Hlow.
  rewrite (replaceRuns_id (fun c => negb (isSlugChar c)) "-"%char s).
  2:{ eapply List.Forall_impl; [|exact Hchars]. intros c Hc. rewrite Hc. reflexivity. }
  rewrite (replaceRuns_no_double_id _ _ Hdbl).
  rewrite (stripEdges_no_head _ _ Hhead).
  change (lit "-") with ["-"%char].
  unfold JS.sliceTo. apply firstn_all2.
  destruct (JS.endsWith ["-"%char] s); [|exact Hlen].
  destruct s as [|c t]; [simpl; lia|].
  pose proof (@exists_last _ (c :: t) ltac:(discriminate)) as (l' & a & Hl).
  rewrite Hl, removelast_last. rewrite Hl, length_app in Hlen. simpl in Hlen. lia.
Qed.

(** A slug goes through [slugify] unchanged, except that a hyphen at its
    end (left by the cut to 63 characters) is dropped. *)
Theorem slugify_twice (input : str) :
  slugify (slugify input) =
  if JS.endsWith (lit "-") (slugify input)
  then removelast (slugify input) else slugify input.
Proof. exact (slugify_again input). Qed.

(** For every input the result of [slugify] is made of [[a-z0-9-]], has no
    upper-case letter, is at most 63 characters long, does not start with a
    hyphen and has no two hyphens in a row. *)
Theorem slugify_result_shape (input : str) :
  Forall (fun c => isSlugChar c = true) (slugify input) /\
  JS.toLowerCase (slugify input) = slugify input /\
  length (slugify input) <= 63 /\
  hd_error (slugify input) <> Some "-"%char /\
  JS.includes (lit "--") (slugify input) = false.
Proof. exact (slugify_shape input). Qed.

Lemma hasAlnum_replaceRuns cls r (s : str) :
  (forall c, cls c = true -> isAlnum c = false) -> isAlnum r = false ->
  hasAlnum (JS.replaceRuns cls r s) = hasAlnum s.
Proof.
  intros Hcls Hr. induction s as [|c t IH]; [reflexivity|].
  rewrite replaceRuns_cons. destruct (cls c) eqn:Ec.
  - cbn [hasAlnum existsb]. rewrite (Hcls c Ec). cbn [orb].
    destruct t as [|d t']; [simpl; rewrite Hr; reflexivity|].
    destruct (cls d); [exact IH|].
    change (hasAlnum (r :: JS.replaceRuns cls r (d :: t')))
      with (isAlnum r || hasAlnum (JS.replaceRuns cls r (d :: t'))).
    rewrite Hr. exact IH.
  - change (hasAlnum (c :: JS.replaceRuns cls r t))
      with (isAlnum c || hasAlnum (JS.replaceRuns cls r t)).
    rewrite IH. reflexivity.
Qed.

Lemma stripEdges_parts c (s : str) :
  exists a b, s = a ++ JS.stripEdges c s ++ b /\
              Forall (fun x => x = c) a /\ Forall (fun x => x = c) b.
Proof.
  unfold JS.stripEdges.
  set (s1 := match s with
             | d :: t => if Ascii.eqb d c then t else s
             | [] => []
             end).
  assert (H1 : exists a, s = a ++ s1 /\ Forall (fun x => x = c) a).
  { subst s1. destruct s as [|d t]; [exists []; split; [reflexivity|constructor]|].
    destruct (Ascii.eqb d c) eqn:E.
    - apply Ascii.eqb_eq in E. exists [d]. split; [reflexivity|repeat constructor; exact E].
    - exists []. split; [reflexivity|constructor]. }
  destruct H1 as (a & Ha & Hac).
  destruct (rev s1) as [|d t] eqn:Er.
  - exists a, []. rewrite Ha. split; [|split; [exact Hac|constructor]].
    assert (Hs1 : s1 = []).
    { rewrite <- (rev_involutive s1), Er. reflexivity. }
    rewrite Hs1. reflexivity.
  - destruct (Ascii.eqb d c) eqn:E.
    + apply Ascii.eqb_eq in E. exists a, [d].
      split; [|split; [exact Hac|repeat constructor; exact E]].
      rewrite Ha at 1. f_equal. rewrite <- (rev_involutive s1), Er. reflexivity.
    + exists a, []. rewrite app_nil_r. split; [exact Ha|split; [exact Hac|constructor]].
Qed.

Lemma hasAlnum_hyphens (s : str) :
  Forall (fun x => x = "-"%char) s -> hasAlnum s = false.
Proof. induction 1 as [|c t -> _ IH]; [reflexivity|]. simpl. exact IH. Qed.

Lemma hasAlnum_app (a b : str) : hasAlnum (a ++ b) = hasAlnum a || hasAlnum b.
Proof. apply existsb_app. Qed.

Lemma slugChar_alnum_or_hyphen c :
  isSlugChar c = true -> isAlnum c = false -> c = "-"%char.
Proof.
  unfold isSlugChar, isAlnum. intros H1 H2. rewrite H2 in H1.
  apply Ascii.eqb_eq. exact H1.
Qed.

Lemma alnum_is_slugChar c : isAlnum c = true -> isSlugChar c = true.
Proof. unfold isSlugChar, isAlnum. intros ->. reflexivity. Qed.

Lemma hyphens_no_double c (s : str) :
  Forall (fun x => x = c) s -> JS.includes [c; c] s = false -> s = [] \/ s = [c].
Proof.
  intros Hall Hno. destruct s as [|x [|y t]]; [left; reflexivity| |].
  - right. inversion Hall; subst. reflexivity.
  - exfalso. inversion Hall as [|? ? -> Hrest]; subst.
    inversion Hrest as [|? ? -> _]; subst.
    cbn in Hno. rewrite Ascii.eqb_refl in Hno. discriminate.
Qed.

(** [slugify] returns the empty string exactly for the inputs that, trimmed
    and in lower case, have no character of [[a-z0-9]]: these are the names
    and labels that the handlers refuse. *)
Theorem slugify_empty_iff (input : str) :
  slugify input = [] <-> hasAlnum (JS.toLowerCase (JS.trim input)) = false.
Proof.
  rewrite slugify_pipeline.
  set (t := JS.toLowerCase (JS.trim input)).
  set (r1 := JS.replaceRuns (fun c => negb (isSlugChar c)) "-"%char t).
  set (r2 := JS.replaceRuns (Ascii.eqb "-"%char) "-"%char r1).
  set (r3 := JS.stripEdges "-"%char r2).
  assert (A1 : hasAlnum r1 = hasAlnum t).
  { apply hasAlnum_replaceRuns; [|reflexivity].
    intros c Hc. apply negb_true_iff in Hc.
    destruct (isAlnum c) eqn:Ea; [|reflexivity].
    apply alnum_is_slugChar in Ea. congruence. }
  assert (A2 : hasAlnum r2 = hasAlnum r1).
  { apply hasAlnum_replaceRuns; [|reflexivity].
    intros c Hc. apply Ascii.eqb_eq in Hc. subst c. reflexivity. }
  assert (A3 : hasAlnum r3 = hasAlnum r2).
  { destruct (stripEdges_parts "-"%char r2) as (a & b & Hsplit & Ha & Hb).
    fold r3 in Hsplit.
    transitivity (hasAlnum (a ++ r3 ++ b)); [|rewrite <- Hsplit; reflexivity].
    rewrite !hasAlnum_app, (hasAlnum_hyphens a Ha), (hasAlnum_hyphens b Hb).
    rewrite orb_false_r. reflexivity. }
  assert (C2 : Forall (fun c => isSlugChar c = true) r2).
  { apply replaceRuns_Forall; [reflexivity|].
    eapply List.Forall_impl; [intros c H _; exact H|].
    apply replaceRuns_Forall; [reflexivity|].
    apply List.Forall_forall. intros c _ Hc. apply negb_false_iff. exact Hc. }
  split.
  - intros Hempty. rewrite <- A1, <- A2, <- A3.
    unfold JS.sliceTo in Hempty. destruct r3 as [|c r]; [reflexivity|discriminate].
  - intros Hnone. rewrite <- A1, <- A2 in Hnone.
    assert (Hall : Forall (fun x => x = "-"%char) r2).
    { rewrite List.Forall_forall in C2. apply List.Forall_forall. intros c Hin.
      apply slugChar_alnum_or_hyphen; [apply C2, Hin|].
      unfold hasAlnum in Hnone.
      destruct (isAlnum c) eqn:Ea; [|reflexivity].
      assert (Hex : existsb isAlnum r2 = true).
      { apply existsb_exists. exists c. auto. }
      congruence. }
    destruct (hyphens_no_double "-"%char r2 Hall (replaceRuns_no_double _ _)) as [H|H];
      subst r3; rewrite H; reflexivity.
Qed.

(** ** More on [safeJoinPosix] *)

Lemma keptParts_join (l : list str) :
  Forall (fun w => keepPart w = true /\ ~ In "/"%char w) l ->
  keptParts (JS.join (lit "/") l) = l.
Proof.
  intros Hall. destruct l as [|w ws]; [reflexivity|].
  unfold keptParts, segments. change (lit "/") with ["/"%char].
  rewrite split_join; [|discriminate|].
  - apply filter_all. eapply List.Forall_impl; [|exact Hall]. simpl. tauto.
  - eapply List.Forall_impl; [|exact Hall]. simpl. tauto.
Qed.

Lemma safeJoinPosix_kept prefix rel :
  safeJoinPosix prefix rel = JS.join (lit "/") (keptParts prefix ++ keptParts rel).
Proof. apply safeJoinPosix_parts. Qed.

Lemma keptParts_safeJoinPosix prefix rel :
  keptParts (safeJoinPosix prefix rel) = keptParts prefix ++ keptParts rel.
Proof.
  rewrite safeJoinPosix_kept. apply keptParts_join.
  apply Forall_app. split; apply keptParts_good.
Qed.

Lemma keptParts_truthy (s : str) :
  keptParts s = List.filter keepPart (List.filter JS.truthy (segments s)).
Proof. unfold keptParts. symmetry. apply filter_keepPart_truthy. Qed.

Lemma keptParts_dropWhile (r : str) :
  keptParts (JS.dropWhile (Ascii.eqb "/"%char) r) = keptParts r.
Proof.
  rewrite !keptParts_truthy. unfold segments.
  rewrite dropWhile_sep_words. reflexivity.
Qed.

Lemma keptParts_trailing_slash (r : str) : keptParts (r ++ lit "/") = keptParts r.
Proof.
  unfold keptParts, segments. change (r ++ lit "/") with (r ++ "/"%char :: []).
  rewrite split_app, List.filter_app. simpl. apply app_nil_r.
Qed.

(** Joining is associative: a key joined with a further path is the key of
    the prefix and the two paths joined. *)
Theorem safeJoinPosix_assoc (a b c : str) :
  safeJoinPosix (safeJoinPosix a b) c = safeJoinPosix a (safeJoinPosix b c).
Proof.
  rewrite (safeJoinPosix_kept (safeJoinPosix a b) c).
  rewrite (safeJoinPosix_kept a (safeJoinPosix b c)).
  rewrite !keptParts_safeJoinPosix, app_assoc. reflexivity.
Qed.

(** Whatever the prefix and the path, the key is in normal form: joining it
    again, as a prefix or as a path, gives the same key, and unless it is
    empty none of its segments is empty, [.] or [..] (so it neither starts
    nor ends with a slash and has no two slashes in a row). *)
Theorem safeJoinPosix_normal (prefix rel : str) :
  let key := safeJoinPosix prefix rel in
  safeJoinPosix key [] = key /\
  safeJoinPosix [] key = key /\
  (key = [] \/ Forall (fun w => keepPart w = true) (segments key)).
Proof.
  cbv zeta.
  assert (Hk : keptParts (safeJoinPosix prefix rel) = keptParts prefix ++ keptParts rel)
    by apply keptParts_safeJoinPosix.
  split; [|split].
  - rewrite (safeJoinPosix_kept (safeJoinPosix prefix rel) []), Hk.
    change (keptParts []) with (@nil str). rewrite app_nil_r.
    symmetry. apply safeJoinPosix_kept.
  - rewrite (safeJoinPosix_kept [] (safeJoinPosix prefix rel)), Hk.
    change (keptParts []) with (@nil str). symmetry. apply safeJoinPosix_kept.
  - rewrite safeJoinPosix_kept.
    pose proof (conj (keptParts_good prefix) (keptParts_good rel)) as Hgood.
    apply Forall_app in Hgood.
    destruct (keptParts prefix ++ keptParts rel) as [|w ws] eqn:El; [left; reflexivity|].
    right. unfold segments. change (lit "/") with ["/"%char].
    rewrite split_join; [|discriminate|].
    + eapply List.Forall_impl; [|exact Hgood]. simpl. tauto.
    + eapply List.Forall_impl; [|exact Hgood]. simpl. tauto.
Qed.

(** Slashes around the path do not matter for the key: leading slashes
    and a trailing slash are dropped, so stripping the leading slashes
    first, as the handlers do, gives the same key. *)
Theorem safeJoinPosix_slashes (prefix rel : str) :
  safeJoinPosix prefix (JS.dropWhile (Ascii.eqb "/"%char) rel) = safeJoinPosix prefix rel /\
  safeJoinPosix prefix (lit "/" ++ rel) = safeJoinPosix prefix rel /\
  safeJoinPosix prefix (rel ++ lit "/") = safeJoinPosix prefix rel.
Proof.
  rewrite !safeJoinPosix_kept, keptParts_dropWhile, keptParts_trailing_slash.
  split; [reflexivity|]. split; [|reflexivity].
  unfold keptParts, segments.
  change (lit "/" ++ rel) with ("/"%char :: rel). rewrite split_cons_sep. reflexivity.
Qed.

(** ** More on the serve handler *)

Section ServeMore.

Context (mime_lookup : str -> option str) (cfg : Config).

Lemma serve_log_chain faults b host reqPath project entry :
  getProjectFromHost cfg host = Some project -> JS.truthy project = true ->
  In entry (serveHandler mime_lookup cfg faults b host reqPath).2 ->
  In entry (chainKeys project (relOf reqPath)).
Proof.
  intros Hp Ht. rewrite (serveHandler_chain _ _ _ _ _ _ _ Hp Ht). cbv zeta.
  unfold spaLog, htmlLog, chainKeys.
  destruct (exactStep _ _ _ _ _) as [r|res1]; [simpl; tauto|].
  destruct (htmlStep _ _ _ _ _) as [r|res2];
    [destruct (wantsHtml _); simpl; tauto|].
  destruct (spaStep _ _ _ _ _), (SPA_FALLBACK cfg), (wantsHtml _); simpl; tauto.
Qed.

Lemma indexKey_in_namespace project : inNamespace project (indexKeyOf project).
Proof.
  right. exists (lit "index.html"). split; [discriminate|].
  unfold indexKeyOf, namespaceRoot. rewrite <- app_assoc. reflexivity.
Qed.

(** Whatever the request path, every key the serve handler fetches lies in
    the namespace of the project of the host: it is [sites/<project>] or
    starts with [sites/<project>/]; no path reads another project's objects
    or the project records. *)
Theorem serve_reads_in_namespace (faults : Faults) (b : Bucket) (host reqPath : str)
    (step : Step) (key : str) :
  In (step, key) (serveHandler mime_lookup cfg faults b host reqPath).2 ->
  exists project,
    getProjectFromHost cfg host = Some project /\ JS.truthy project = true /\
    inNamespace project key /\ (forall name, key <> META_PREFIX ++ name).
Proof.
  intros Hin.
  destruct (noProject (getProjectFromHost cfg host)) eqn:En.
  { rewrite serveHandler_no_project in Hin by exact En. destruct Hin. }
  unfold noProject in En.
  destruct (getProjectFromHost cfg host) as [p|] eqn:Hp; [|discriminate].
  apply negb_false_iff in En.
  exists p. split; [reflexivity|]. split; [exact En|].
  assert (Hns : inNamespace p key).
  { apply (serve_log_chain _ _ _ _ _ _ Hp En) in Hin.
    destruct (getProjectFromHost_slug cfg host p Hp) as [x ->].
    pose proof (slugify_segments x En) as Hseg.
    destruct Hin as [Heq|[Heq|[Heq|Hf]]]; [| | |destruct Hf];
      injection Heq as _ <-.
    - apply safeJoinPosix_namespace, Hseg.
    - apply safeJoinPosix_namespace, Hseg.
    - apply indexKey_in_namespace. }
  split; [exact Hns|]. intros name. eapply namespace_not_meta. exact Hns.
Qed.

End ServeMore.

Lemma serve_reads_in_namespace_witness :
  inNamespace (lit "demo") (lit "sites/demo/__meta/projects/demo.json").
Proof.
  destruct (serve_reads_in_namespace sampleMime defaultConfig noFaults demoSite demoHost
              (lit "/../../__meta/projects/demo.json") Exact
              (lit "sites/demo/__meta/projects/demo.json"))
    as (p & Hp & _ & Hns & _).
  - vm_compute. left. reflexivity.
  - vm_compute in Hp. injection Hp as <-. exact Hns.
Defined.

(** ** More on the upload handler *)

Lemma applyPuts_app (l1 l2 : list (str * Object)) (b : Bucket) :
  applyPuts (l1 ++ l2) b = applyPuts l2 (applyPuts l1 b).
Proof. unfold applyPuts. apply fold_left_app. Qed.

Lemma namespace_first_segment slug key :
  ~ In "/"%char slug -> inNamespace slug key ->
  hd [] (JS.split "/"%char (skipn 6 key)) = slug.
Proof.
  intros Hno [->|(rest & _ & ->)]; unfold namespaceRoot.
  - change (skipn 6 (SITES_PREFIX ++ slug)) with slug.
    rewrite split_no_sep by exact Hno. reflexivity.
  - rewrite <- app_assoc.
    change (skipn 6 (SITES_PREFIX ++ slug ++ lit "/" ++ rest))
      with (slug ++ "/"%char :: rest).
    rewrite split_app, split_no_sep by exact Hno. reflexivity.
Qed.

Lemma namespace_unique s1 s2 key :
  ~ In "/"%char s1 -> ~ In "/"%char s2 ->
  inNamespace s1 key -> inNamespace s2 key -> s1 = s2.
Proof.
  intros H1 H2 N1 N2.
  rewrite <- (namespace_first_segment s1 key H1 N1).
  apply (namespace_first_segment s2 key H2 N2).
Qed.

Lemma slugify_no_slash x : ~ In "/"%char (slugify x).
Proof.
  intros Hin. pose proof (proj1 (slugify_shape x)) as Hall.
  rewrite List.Forall_forall in Hall. apply Hall in Hin. discriminate.
Qed.

Section UploadMore.

Context (mime_lookup : str -> option str) (cfg : Config) (faults : Faults).

Lemma forEntries_app slug pre rest : forall st,
  forEntries mime_lookup faults slug st (pre ++ rest) =
  match forEntries mime_lookup faults slug st pre with
  | Completed st' => forEntries mime_lookup faults slug st' rest
  | Threw e st' => Threw e st'
  end.
Proof.
  induction pre as [|e pre IH]; intros st; [reflexivity|].
  cbn [app forEntries].
  destruct (loopBody mime_lookup faults slug st e); [apply IH|reflexivity].
Qed.

Lemma forEntries_completed slug files : forall st st',
  forEntries mime_lookup faults slug st files = Completed st' ->
  bucket st' =
    applyPuts (map (putOf mime_lookup slug) (List.filter uploadable files)) (bucket st) /\
  Forall (fun e => uploadable e = true -> putFails faults (keyOf slug e) = false) files.
Proof.
  induction files as [|e rest IH]; intros st st' Hrun.
  - injection Hrun as <-. split; [reflexivity|constructor].
  - cbn [forEntries] in Hrun. cbn [List.filter].
    destruct (uploadable e) eqn:Eu.
    + rewrite loopBody_upload in Hrun by exact Eu.
      destruct (putFails faults (keyOf slug e)) eqn:Ef; [discriminate|].
      apply IH in Hrun as [Hb Hall]. split; [exact Hb|].
      constructor; [intros _; exact Ef|exact Hall].
    + rewrite loopBody_skip in Hrun by exact Eu.
      apply IH in Hrun as [Hb Hall]. split; [exact Hb|].
      constructor; [congruence|exact Hall].
Qed.

Lemma upload_unchanged_outside b slugParam file key :
  ~ inNamespace (slugify slugParam) key ->
  (uploadHandler mime_lookup cfg faults b slugParam file).1.2 !! key = b !! key.
Proof.
  intros Hout.
  destruct (uploadHandler_cases mime_lookup cfg faults b slugParam file)
    as [(Hb & _ & _)|(files & Ht & _ & _ & _ & Hr)]; cbv zeta in *.
  - rewrite Hb. reflexivity.
  - rewrite Hr. cbn [fst snd].
    destruct (run_bucket mime_lookup faults (slugify slugParam) b files)
      as (puts & Hputs & Hrun).
    rewrite (Hrun b), stateOf_resultWithBucket.
    apply applyPuts_lookup_other. apply List.Forall_forall.
    intros kv Hin Hk. rewrite List.Forall_forall in Hputs.
    destruct (Hputs kv Hin) as (e & _ & _ & ->). simpl in Hk. subst key.
    apply Hout. apply safeJoinPosix_namespace, slugify_segments, Ht.
Qed.

(** An upload leaves every project record and every other project alone:
    no key under [__meta/projects/] and no key in the namespace of another
    slug has a different object, or none, after the upload, whatever the
    archive holds. *)
Theorem upload_isolated (b : Bucket) (slugParam : str) (file : option ZipFile)
    (key : str) :
  let after := (uploadHandler mime_lookup cfg faults b slugParam file).1.2 in
  (forall name, key = META_PREFIX ++ name -> after !! key = b !! key) /\
  (forall other,
     ~ In "/"%char other -> other <> slugify slugParam -> inNamespace other key ->
     after !! key = b !! key).
Proof.
  cbv zeta. split.
  - intros name ->. apply upload_unchanged_outside.
    intros Hns. exact (namespace_not_meta _ _ name Hns eq_refl).
  - intros other Hno Hne Hother. apply upload_unchanged_outside.
    intros Hns. apply Hne.
    exact (namespace_unique _ _ key Hno (slugify_no_slash slugParam) Hother Hns).
Qed.

End UploadMore.

Lemma upload_isolated_witness :
  (uploadHandler sampleMime defaultConfig noFaults demoBucket (lit "demo")
     (Some (Readable demoArchive))).1.2 !! lit "sites/demo2/index.html" =
  demoBucket !! lit "sites/demo2/index.html".
Proof.
  refine (proj2 (upload_isolated sampleMime defaultConfig noFaults demoBucket (lit "demo")
                   (Some (Readable demoArchive)) (lit "sites/demo2/index.html"))
            (lit "demo2") _ _ _).
  - vm_compute. intuition discriminate.
  - vm_compute. discriminate.
  - right. exists (lit "index.html"). split; [discriminate|reflexivity].
Defined.

Lemma lookupContentType_truthy mime_lookup p ct :
  lookupContentType mime_lookup p = Some ct -> JS.truthy ct = true.
Proof.
  unfold lookupContentType. destruct (mime_lookup p) as [m|]; [|discriminate].
  destruct (JS.truthy m) eqn:Em; simpl; [|discriminate].
  repeat match goal with
         | |- context [if JS.eqb ?a ?b then _ else _] => destruct (JS.eqb a b)
         end; intros [= <-]; try reflexivity; exact Em.
Qed.

Lemma orElse_truthy (a : option str) (d : str) :
  JS.truthy d = true -> JS.truthy (JS.orElse a d) = true.
Proof.
  intros Hd. unfold JS.orElse. destruct a as [s|]; [|exact Hd].
  destruct (JS.truthy s) eqn:Es; [exact Es|exact Hd].
Qed.

Lemma orElse_some_truthy (s d : str) :
  JS.truthy s = true -> JS.orElse (Some s) d = s.
Proof. intros Hs. unfold JS.orElse. rewrite Hs. reflexivity. Qed.

Section UploadRuns.

Context (mime_lookup : str -> option str) (cfg : Config) (faults : Faults).

Lemma uploadHandler_completed b slugParam files :
  upStatus (uploadHandler mime_lookup cfg faults b slugParam
              (Some (Readable files))).1.1 = 200 ->
  exists st,
    forEntries mime_lookup faults (slugify slugParam) (startOf b) files = Completed st /\
    (uploadHandler mime_lookup cfg faults b slugParam (Some (Readable files))).1.2 =
      bucket st.
Proof.
  intros Hok.
  destruct (uploadHandler_cases mime_lookup cfg faults b slugParam (Some (Readable files)))
    as [(_ & _ & code & msg & Hr)|(files' & _ & _ & Hf & _ & Hr)]; cbv zeta in *.
  - exfalso. unfold uploadHandler in *.
    destruct (negb (JS.truthy (slugify slugParam))); [discriminate|].
    destruct (negb (projectExists faults b (slugify slugParam))); [discriminate|].
    destruct (2000 <? length files); [discriminate|].
    destruct (forEntries _ _ _ _ _); simpl in *; discriminate.
  - injection Hf as <-. rewrite Hr in Hok |- *. cbn [fst snd] in *.
    destruct (forEntries _ _ _ _ _) as [st|e st]; [|discriminate].
    exists st. split; reflexivity.
Qed.

(** When the put of an entry fails, the upload answers 500; the entries
    before it are stored as by an upload of them alone, the failing put is
    the last thing sent, and nothing of the entries after it is extracted
    or put. *)
Theorem upload_put_failure (b : Bucket) (slugParam : str) (pre post : list Entry)
    (e : Entry) :
  JS.truthy (slugify slugParam) = true ->
  projectExists faults b (slugify slugParam) = true ->
  length (pre ++ e :: post) <= 2000 ->
  (forall e', In e' pre -> putFails faults (keyOf (slugify slugParam) e') = false) ->
  uploadable e = true ->
  putFails faults (keyOf (slugify slugParam) e) = true ->
  let r := uploadHandler mime_lookup cfg faults b slugParam
             (Some (Readable (pre ++ e :: post))) in
  let r0 := uploadHandler mime_lookup cfg faults b slugParam (Some (Readable pre)) in
  r.1.1 = json 500 (lit "Upload failed") /\
  upStatus r0.1.1 = 200 /\
  r.1.2 = r0.1.2 /\
  r.2 = r0.2 ++ [Extracted (path e); PutSent (keyOf (slugify slugParam) e)].
Proof.
  intros Ht Hp Hlen Hpre Hup Hfail. cbv zeta.
  assert (Hlen0 : length pre <= 2000).
  { rewrite length_app in Hlen. lia. }
  rewrite !uploadHandler_loop by assumption. cbv zeta.
  rewrite forEntries_app.
  destruct (forEntries_completes mime_lookup faults (slugify slugParam) pre
              (startOf b) Hpre) as [st Hst].
  rewrite Hst. cbn [forEntries].
  rewrite loopBody_upload, Hfail by exact Hup.
  simpl. auto.
Qed.

(** After a successful upload the object at the key of an uploaded entry
    is that entry's, unless a later entry of the archive has the same key;
    and the serve handler answers a request for the entry's path, on a host
    of the project, with the entry's bytes, the content type and cache
    control the upload recorded, and the status 200, fetching that key
    only. *)
Theorem upload_then_serve (b : Bucket) (slugParam : str) (pre post : list Entry)
    (e : Entry) (serveFaults : Faults) (host reqPath : str) :
  let slug := slugify slugParam in
  let r := uploadHandler mime_lookup cfg faults b slugParam
             (Some (Readable (pre ++ e :: post))) in
  upStatus r.1.1 = 200 ->
  uploadable e = true ->
  (forall e', In e' post -> uploadable e' = true -> keyOf slug e' <> keyOf slug e) ->
  r.1.2 !! keyOf slug e = Some (objectOf mime_lookup e) /\
  (getProjectFromHost cfg host = Some slug ->
   relOf reqPath = relPathOf e ->
   getFails serveFaults (keyOf slug e) = false ->
   readFails serveFaults (keyOf slug e) = false ->
   serveHandler mime_lookup cfg serveFaults r.1.2 host reqPath =
   (send {| status := 200;
            contentType := objContentType (objectOf mime_lookup e);
            cacheControl := objCacheControl (objectOf mime_lookup e) |} (data e),
    [(Exact, keyOf slug e)])).
Proof.
  cbv zeta. intros Hok Hup Hlater.
  destruct (uploadHandler_completed b slugParam _ Hok) as (st & Hrun & Hb).
  assert (Hstored : (uploadHandler mime_lookup cfg faults b slugParam
                       (Some (Readable (pre ++ e :: post)))).1.2
                    !! keyOf (slugify slugParam) e = Some (objectOf mime_lookup e)).
  { rewrite Hb. apply forEntries_completed in Hrun as [-> _].
    rewrite List.filter_app. cbn [List.filter]. rewrite Hup.
    rewrite map_app. cbn [map]. rewrite applyPuts_app.
    change (applyPuts (putOf mime_lookup (slugify slugParam) e :: ?l) ?x)
      with (applyPuts l (<[keyOf (slugify slugParam) e := objectOf mime_lookup e]> x)).
    rewrite applyPuts_lookup_other; [apply lookup_insert_eq|].
    apply List.Forall_forall. intros kv Hin.
    apply in_map_iff in Hin as (e' & <- & Hin').
    apply filter_In in Hin' as [Hin' Hu']. simpl. apply Hlater; assumption. }
  split; [exact Hstored|].
  intros Hp Hrel Hget Hread.
  assert (Ht : JS.truthy (slugify slugParam) = true).
  { unfold uploadHandler in Hok.
    destruct (JS.truthy (slugify slugParam)); [reflexivity|discriminate]. }
  rewrite (serveHandler_chain _ _ _ _ _ _ _ Hp Ht). cbv zeta.
  unfold exactStep, baseKeyOf. rewrite Hrel. fold (keyOf (slugify slugParam) e).
  rewrite (attempt_hit serveFaults _ _ _ _ _ _ Hstored Hget Hread).
  unfold prepareExact, objectOf. cbn [ContentType CacheControl objContentType
                                      objCacheControl objBody].
  rewrite orElse_some_truthy by (apply orElse_truthy; reflexivity).
  destruct (JS.endsWith (lit ".html") (JS.toLowerCase (relPathOf e))); reflexivity.
Qed.

End UploadRuns.

Lemma upload_put_failure_witness :
  let r := uploadHandler sampleMime defaultConfig bUnwritable demoBucket (lit "demo")
             (Some (Readable [textFile "a.txt" "A"; textFile "b.txt" "B";
                              textFile "c.txt" "C"])) in
  r.1.1 = json 500 (lit "Upload failed") /\
  r.1.2 = (uploadHandler sampleMime defaultConfig bUnwritable demoBucket (lit "demo")
             (Some (Readable [textFile "a.txt" "A"]))).1.2.
Proof.
  cbv zeta.
  destruct (upload_put_failure sampleMime defaultConfig bUnwritable demoBucket (lit "demo")
              [textFile "a.txt" "A"] [textFile "c.txt" "C"] (textFile "b.txt" "B"))
    as (Hresp & _ & Hbucket & _).
  - vm_compute. reflexivity.
  - vm_compute. reflexivity.
  - simpl. lia.
  - intros e' [<-|[]]. vm_compute. reflexivity.
  - vm_compute. reflexivity.
  - vm_compute. reflexivity.
  - split; [exact Hresp|exact Hbucket].
Defined.

Lemma upload_then_serve_witness :
  serveHandler sampleMime defaultConfig noFaults demoUpload.1.2 demoHost (lit "/index.html") =
  (send {| status := 200; contentType := Some (lit "text/html; charset=utf-8");
           cacheControl := Some (lit "no-cache") |} (lit "<h1>hi</h1>"),
   [(Exact, lit "sites/demo/index.html")]).
Proof.
  destruct (upload_then_serve sampleMime defaultConfig noFaults demoBucket (lit "demo")
              [textFile "../../etc/passwd" "root";
               {| type := Directory; path := lit "css/"; data := [] |}]
              [textFile "notes..txt" "n"]
              (textFile "/index.html" "<h1>hi</h1>")
              noFaults demoHost (lit "/index.html")) as [_ Hserve].
  - vm_compute. reflexivity.
  - vm_compute. reflexivity.
  - intros e' [<-|[]] Hu. vm_compute in Hu. discriminate.
  - apply Hserve; vm_compute; reflexivity.
Defined.

(** ** More on hosts and configuration *)

(** For a host [<sub>.<baseDomain>] that is not a main host, with any number
    of labels in [<sub>], the project is the slug of the first label of
    [<sub>]: [a.b.<baseDomain>] belongs to the project [a]. *)
Theorem getProjectFromHost_first_label (cfg : Config) (host sub : str) :
  normHost host = sub ++ lit "." ++ JS.toLowerCase (HOSTING_BASE_DOMAIN cfg) ->
  ~ In (normHost host) (MAIN_HOSTS cfg) ->
  getProjectFromHost cfg host = Some (slugify (hd [] (JS.split "."%char sub))).
Proof.
  intros Hform Hmain.
  set (base := JS.toLowerCase (HOSTING_BASE_DOMAIN cfg)) in *.
  assert (Ht : JS.truthy host = true).
  { apply normHost_truthy. rewrite Hform. destruct sub; discriminate. }
  rewrite getProjectFromHost_unfold by exact Ht. cbv zeta. fold base.
  destruct (JS.arrayIncludes (MAIN_HOSTS cfg) (normHost host)) eqn:Em.
  { apply arrayIncludes_spec in Em. contradiction. }
  rewrite Hform.
  assert (Hne : JS.eqb (sub ++ lit "." ++ base) base = false).
  { apply eqb_false_str. intros Heq. apply (f_equal (@length ascii)) in Heq.
    rewrite !length_app in Heq. simpl in Heq. lia. }
  rewrite Hne.
  assert (Hends : JS.endsWith (lit "." ++ base) (sub ++ lit "." ++ base) = true).
  { apply endsWith_spec. exists sub. reflexivity. }
  rewrite Hends.
  assert (Hcut : JS.sliceOffEnd (length base + 1) (sub ++ lit "." ++ base) = sub).
  { unfold JS.sliceOffEnd. rewrite !length_app. simpl length.
    replace (length sub + (1 + length base) - (length base + 1))
      with (length sub + 0) by lia.
    rewrite firstn_app_2. simpl. apply app_nil_r. }
  rewrite Hcut. reflexivity.
Qed.

Lemma getProjectFromHost_first_label_witness :
  getProjectFromHost defaultConfig (lit "Shop.Preview.quick-stage.app:443") =
  Some (lit "shop").
Proof.
  refine (getProjectFromHost_first_label defaultConfig
            (lit "Shop.Preview.quick-stage.app:443") (lit "shop.preview") _ _).
  - vm_compute. reflexivity.
  - vm_compute. intuition discriminate.
Defined.



Lemma dropWhile_head (p : ascii -> bool) (s : str) :
  match JS.dropWhile p s with c :: _ => p c = false | [] => True end.
Proof.
  induction s as [|c t IH]; [exact I|].
  simpl. destruct (p c) eqn:E; [exact IH|exact E].
Qed.

Lemma dropWhile_id_head (p : ascii -> bool) (s : str) :
  match s with c :: _ => p c = false | [] => True end -> JS.dropWhile p s = s.
Proof. destruct s as [|c t]; [reflexivity|]. simpl. intros ->. reflexivity. Qed.

Lemma dropWhile_suffix (p : ascii -> bool) (s : str) :
  exists d, s = d ++ JS.dropWhile p s.
Proof.
  induction s as [|c t [d IH]]; [exists []; reflexivity|].
  simpl. destruct (p c); [|exists []; reflexivity].
  exists (c :: d). simpl. rewrite <- IH. reflexivity.
Qed.

Lemma trim_idem (s : str) : JS.trim (JS.trim s) = JS.trim s.
Proof.
  unfold JS.trim, JS.dropWhileEnd.
  set (A := JS.dropWhile JS.isSpace s).
  set (R := JS.dropWhile JS.isSpace (rev A)).
  assert (HR : match R with c :: _ => JS.isSpace c = false | [] => True end)
    by apply dropWhile_head.
  assert (HB : match rev R with c :: _ => JS.isSpace c = false | [] => True end).
  { destruct (dropWhile_suffix JS.isSpace (rev A)) as [d Hd]. fold R in Hd.
    assert (HA : A = rev R ++ rev d).
    { rewrite <- (rev_involutive A), Hd, rev_app_distr. reflexivity. }
    pose proof (dropWhile_head JS.isSpace s) as Hh. fold A in Hh.
    rewrite HA in Hh. destruct (rev R); [exact I|exact Hh]. }
  rewrite (dropWhile_id_head _ (rev R) HB), rev_involutive.
  rewrite (dropWhile_id_head _ R HR). reflexivity.
Qed.

(** The configuration read from the environment: the base domain is never
    empty, every main host is non-empty and trimmed, and the SPA fallback
    is on when [SPA_FALLBACK] is unset or empty and otherwise exactly when
    its value is [true] in any mix of cases. *)
Theorem configOfEnv_wellformed (e : Env) :
  let c := configOfEnv e in
  HOSTING_BASE_DOMAIN c <> [] /\
  Forall (fun h => h <> [] /\ JS.trim h = h) (MAIN_HOSTS c) /\
  (env_SPA_FALLBACK e = None \/ env_SPA_FALLBACK e = Some [] -> SPA_FALLBACK c = true) /\
  (forall v, env_SPA_FALLBACK e = Some v -> v <> [] ->
             (SPA_FALLBACK c = true <-> JS.toLowerCase v = lit "true")).
Proof.
  cbv zeta. unfold configOfEnv. cbn [HOSTING_BASE_DOMAIN MAIN_HOSTS SPA_FALLBACK].
  split; [|split; [|split]].
  - apply truthy_spec, orElse_truthy. reflexivity.
  - apply List.Forall_forall. intros h Hin.
    apply filter_In in Hin as [Hin Ht]. apply truthy_spec in Ht.
    apply in_map_iff in Hin as (x & <- & _).
    split; [exact Ht|apply trim_idem].
  - intros [-> | ->]; reflexivity.
  - intros v -> Hv. apply truthy_spec in Hv.
    rewrite orElse_some_truthy by exact Hv. apply eqb_spec_str.
Qed.

Lemma configOfEnv_wellformed_witness :
  MAIN_HOSTS (configOfEnv {| env_MAIN_HOSTS := Some (lit " a.example , ,b.example ");
                             env_HOSTING_BASE_DOMAIN := Some [];
                             env_SPA_FALLBACK := Some (lit "TRUE") |}) =
    [lit "a.example"; lit "b.example"] /\
  SPA_FALLBACK (configOfEnv {| env_MAIN_HOSTS := Some (lit " a.example , ,b.example ");
                               env_HOSTING_BASE_DOMAIN := Some [];
                               env_SPA_FALLBACK := Some (lit "TRUE") |}) = true.
Proof.
  split; [vm_compute; reflexivity|].
  destruct (configOfEnv_wellformed
              {| env_MAIN_HOSTS := Some (lit " a.example , ,b.example ");
                 env_HOSTING_BASE_DOMAIN := Some [];
                 env_SPA_FALLBACK := Some (lit "TRUE") |}) as (_ & _ & _ & Hspa).
  apply (Hspa (lit "TRUE")); [reflexivity|discriminate|vm_compute; reflexivity].
Defined.

(** ** More on the chain *)

Section ServeEdges.

Context (mime_lookup : str -> option str) (cfg : Config).


Lemma prepareExact_hit rel o broke :
  prepareExact mime_lookup rel
    {| Body := {| chunks := [objBody o]; broken := broke |};
       ContentType := objContentType o; CacheControl := objCacheControl o |} freshRes =
  {| status := 200;
     contentType := Some (JS.orElse (objContentType o)
                            (JS.orElse (lookupContentType mime_lookup rel)
                               (lit "application/octet-stream")));
     cacheControl := cacheHeaderOf o |}.
Proof.
  unfold prepareExact, cacheHeaderOf. cbn [ContentType CacheControl].
  destruct (objCacheControl o) as [cc|]; [destruct (JS.truthy cc)|]; reflexivity.
Qed.

(** When the exact key holds a readable object the answer is that object
    with the status 200: its content type is the recorded one, else the
    one of the extension of the path, else [application/octet-stream]; the
    cache control is the recorded one when there is one; no other key is
    fetched. *)
Theorem serve_exact_hit (faults : Faults) (b : Bucket) (host reqPath project : str)
    (o : Object) :
  getProjectFromHost cfg host = Some project -> JS.truthy project = true ->
  b !! baseKeyOf project (relOf reqPath) = Some o ->
  getFails faults (baseKeyOf project (relOf reqPath)) = false ->
  readFails faults (baseKeyOf project (relOf reqPath)) = false ->
  serveHandler mime_lookup cfg faults b host reqPath =
  (send {| status := 200;
           contentType := Some (JS.orElse (objContentType o)
                                  (JS.orElse (lookupContentType mime_lookup (relOf reqPath))
                                     (lit "application/octet-stream")));
           cacheControl := cacheHeaderOf o |} (objBody o),
   [(Exact, baseKeyOf project (relOf reqPath))]).
Proof.
  intros Hp Ht Hb Hget Hread.
  rewrite (serveHandler_chain _ _ _ _ _ _ _ Hp Ht). cbv zeta. unfold exactStep.
  rewrite (attempt_hit faults b _ _ _ _ o Hb Hget Hread).
  rewrite prepareExact_hit. reflexivity.
Qed.

Lemma attempt_broken (faults : Faults) (b : Bucket) key prepare finish res o :
  b !! key = Some o -> getFails faults key = false -> readFails faults key = true ->
  swallow (attempt faults b key prepare finish res) =
  inr (prepare {| Body := {| chunks := [objBody o]; broken := true |};
                  ContentType := objContentType o;
                  CacheControl := objCacheControl o |} res).
Proof.
  intros Hb Hg Hr. unfold attempt, fetchObject, getObject, streamToBuffer.
  rewrite Hg, Hb, Hr. reflexivity.
Qed.

Lemma attempt_html_miss faults b key finish res :
  hit faults b key = false ->
  exists res', swallow (attempt faults b key prepareHtml finish res) = inr res' /\
               status res' = status res /\ cacheControl res' = cacheControl res.
Proof.
  unfold hit, attempt, fetchObject, streamToBuffer.
  destruct (getObject faults b key) as [e|obj]; [intros _; eexists; split; eauto|].
  destruct (broken (Body obj)); [intros _|discriminate].
  eexists. split; [reflexivity|]. split; reflexivity.
Qed.

(** The headers of the first [try] block outlive a failed read: when the
    object at the exact key is fetched but its body cannot be read, and the
    later steps miss, the answer is the 404 [Not Found], still carrying the
    cache control of that object. *)
Theorem serve_unread_body_leaves_cache_header (faults : Faults) (b : Bucket)
    (host reqPath project : str) (o : Object) :
  getProjectFromHost cfg host = Some project -> JS.truthy project = true ->
  b !! baseKeyOf project (relOf reqPath) = Some o ->
  getFails faults (baseKeyOf project (relOf reqPath)) = false ->
  readFails faults (baseKeyOf project (relOf reqPath)) = true ->
  (wantsHtml (relOf reqPath) = true ->
   hit faults b (htmlKeyOf project (relOf reqPath)) = false) ->
  (SPA_FALLBACK cfg = true -> hit faults b (indexKeyOf project) = false) ->
  (serveHandler mime_lookup cfg faults b host reqPath).1 =
  send {| status := 404; contentType := Some (lit "text/plain");
          cacheControl := cacheHeaderOf o |} (lit "Not Found").
Proof.
  intros Hp Ht Hb Hget Hread Hhtml Hspa.
  rewrite (serveHandler_chain _ _ _ _ _ _ _ Hp Ht). cbv zeta. unfold exactStep.
  rewrite (attempt_broken faults b _ _ _ _ o Hb Hget Hread), prepareExact_hit.
  set (res1 := {| status := 200; contentType := _; cacheControl := cacheHeaderOf o |}).
  assert (H2 : exists res2, htmlStep faults b project (relOf reqPath) res1 = inr res2 /\
                            cacheControl res2 = cacheHeaderOf o).
  { unfold htmlStep. destruct (wantsHtml (relOf reqPath)); [|exists res1; auto].
    destruct (attempt_html_miss faults b _ (fun res => res) res1 (Hhtml eq_refl))
      as (res2 & -> & _ & Hc). exists res2. auto. }
  destruct H2 as (res2 & -> & Hc2).
  assert (H3 : exists res3, spaStep cfg faults b project res2 = inr res3 /\
                            cacheControl res3 = cacheHeaderOf o).
  { unfold spaStep. destruct (SPA_FALLBACK cfg); [|exists res2; auto].
    destruct (attempt_html_miss faults b _ (setStatus 200) res2 (Hspa eq_refl))
      as (res3 & -> & _ & Hc). exists res3. split; [reflexivity|congruence]. }
  destruct H3 as (res3 & -> & Hc3).
  cbn [fst]. unfold notFound, send, setContentType, setStatus. simpl. rewrite Hc3.
  reflexivity.
Qed.

End ServeEdges.


Lemma serve_exact_hit_witness :
  serveHandler sampleMime defaultConfig noFaults demoSite demoHost (lit "/app.css") =
  (send {| status := 200; contentType := Some (lit "text/css; charset=utf-8");
           cacheControl := Some (lit "public, max-age=86400") |} (lit "body{}"),
   [(Exact, lit "sites/demo/app.css")]).
Proof.
  refine (serve_exact_hit sampleMime defaultConfig noFaults demoSite demoHost
            (lit "/app.css") (lit "demo")
            {| objBody := lit "body{}";
               objContentType := Some (lit "text/css; charset=utf-8");
               objCacheControl := Some (lit "public, max-age=86400") |} _ _ _ _ _).
  - vm_compute. reflexivity.
  - reflexivity.
  - vm_compute. reflexivity.
  - reflexivity.
  - reflexivity.
Defined.

Lemma serve_unread_body_leaves_cache_header_witness :
  (serveHandler sampleMime defaultConfig cssUnreadable cssOnly demoHost (lit "/app.css")).1 =
  send {| status := 404; contentType := Some (lit "text/plain");
          cacheControl := Some (lit "public, max-age=86400") |} (lit "Not Found").
Proof.
  refine (serve_unread_body_leaves_cache_header sampleMime defaultConfig cssUnreadable
            cssOnly demoHost (lit "/app.css") (lit "demo")
            {| objBody := lit "body{}";
               objContentType := Some (lit "text/css; charset=utf-8");
               objCacheControl := Some (lit "public, max-age=86400") |} _ _ _ _ _ _ _).
  - vm_compute. reflexivity.
  - reflexivity.
  - vm_compute. reflexivity.
  - reflexivity.
  - vm_compute. reflexivity.
  - intros H. vm_compute in H. discriminate.
  - intros _. vm_compute. reflexivity.
Defined.

(** ** Creating a project *)

Section CreateProps.

Context (rand : nat -> nat) (stringify : ProjectMeta -> str) (cfg : Config)
        (faults : Faults).

Lemma randomSuffix_length k len : length (randomSuffix rand k len) = len.
Proof. revert k. induction len as [|n IH]; intros k; simpl; [|rewrite IH]; reflexivity. Qed.

Lemma digit_is_slugChar n :
  isSlugChar (nth (n mod 10) (lit "0123456789") "0"%char) = true.
Proof.
  pose proof (Nat.mod_upper_bound n 10 ltac:(lia)) as Hlt.
  remember (n mod 10) as d eqn:Hd. clear Hd.
  do 10 (destruct d as [|d]; [reflexivity|]). lia.
Qed.

Lemma digit_not_hyphen n : nth (n mod 10) (lit "0123456789") "0"%char <> "-"%char.
Proof.
  pose proof (Nat.mod_upper_bound n 10 ltac:(lia)) as Hlt.
  remember (n mod 10) as d eqn:Hd. clear Hd.
  do 10 (destruct d as [|d]; [discriminate|]). lia.
Qed.

Lemma randomSuffix_chars k len :
  Forall (fun c => isSlugChar c = true /\ c <> "-"%char) (randomSuffix rand k len).
Proof.
  revert k. induction len as [|n IH]; intros k; simpl; constructor.
  - split; [apply digit_is_slugChar|apply digit_not_hyphen].
  - apply IH.
Qed.

(** What the loop returns: a free candidate after fewer than 20 taken ones,
    or 20 tries with every candidate taken. *)
Lemma whileTries_result b slug : forall fuel tries k,
  tries + fuel = 20 ->
  let r := whileTries rand faults b slug fuel tries k in
  (exists j, j < fuel /\ r = (tries + j, candidate rand slug k j) /\
             projectExists faults b (candidate rand slug k j) = false /\
             forall i, i < j -> projectExists faults b (candidate rand slug k i) = true) \/
  (r = (20, slug) /\
   forall i, i < fuel -> projectExists faults b (candidate rand slug k i) = true).
Proof.
  induction fuel as [|fuel IH]; intros tries k Hsum; cbv zeta.
  - right. simpl. split; [f_equal; lia|]. intros i Hi. lia.
  - cbn [whileTries].
    assert (Hlt : (tries <? 20) = true) by (apply Nat.ltb_lt; lia).
    rewrite Hlt. fold (candidate rand slug k 0).
    replace (slug ++ lit "-" ++ randomSuffix rand k 3) with (candidate rand slug k 0)
      by (unfold candidate; rewrite Nat.mul_0_r, Nat.add_0_r; reflexivity).
    destruct (projectExists faults b (candidate rand slug k 0)) eqn:E0; simpl negb; cbv iota.
    + assert (Hshift : forall i, candidate rand slug (k + 3) i = candidate rand slug k (S i)).
      { intros i. unfold candidate. do 3 f_equal. lia. }
      destruct (IH (S tries) (k + 3) ltac:(lia)) as [(j & Hj & Hr & Hfree & Htaken)|[Hr Htaken]].
      * left. exists (S j). split; [lia|].
        rewrite Hr, Hshift in *. split; [f_equal; lia|]. split; [exact Hfree|].
        intros [|i] Hi; [exact E0|]. rewrite <- Hshift. apply Htaken. lia.
      * right. split; [exact Hr|].
        intros [|i] Hi; [exact E0|]. rewrite <- Hshift. apply Htaken. lia.
    + left. exists 0. split; [lia|]. split; [f_equal; lia|]. split; [exact E0|].
      intros i Hi. lia.
Qed.

(** The handler after the checks of the name: the slug it settles on and
    what it stores. *)
Lemma createHandler_named b nm desiredSlug user now k :
  JS.truthy nm = true -> JS.truthy (baseSlug nm desiredSlug) = true ->
  let base := baseSlug nm desiredSlug in
  let r := createHandler rand stringify cfg faults b (Some nm) desiredSlug user now k in
  (projectExists faults b base = true /\
   (forall i, i < 20 -> projectExists faults b (candidate rand base k i) = true) /\
   r = (createError 409 (lit "Could not find an available slug. Try another name."), b)) \/
  (exists slug,
     ((projectExists faults b base = false /\ slug = base) \/
      (projectExists faults b base = true /\
       exists j, j < 20 /\ slug = candidate rand base k j /\
                 forall i, i < j -> projectExists faults b (candidate rand base k i) = true)) /\
     projectExists faults b slug = false /\
     r = (if putFails faults (metaKey slug)
          then (createError 500 (lit "Server error creating project"), b)
          else ({| crStatus := 200; crBody := Created (metaFor cfg slug nm user now) |},
                <[metaKey slug := jsonObject stringify (metaFor cfg slug nm user now)]> b))).
Proof.
  intros Hn Hs. cbv zeta. unfold createHandler. rewrite Hn. simpl negb. cbv iota.
  fold (baseSlug nm desiredSlug). rewrite Hs. simpl negb. cbv iota.
  set (base := baseSlug nm desiredSlug).
  assert (Hput : forall slug,
            match putJson stringify faults b (META_PREFIX ++ slug ++ lit ".json")
                    (metaFor cfg slug nm user now) with
            | inl _ => (createError 500 (lit "Server error creating project"), b)
            | inr b' => ({| crStatus := 200;
                            crBody := Created (metaFor cfg slug nm user now) |}, b')
            end =
            if putFails faults (metaKey slug)
            then (createError 500 (lit "Server error creating project"), b)
            else ({| crStatus := 200; crBody := Created (metaFor cfg slug nm user now) |},
                  <[metaKey slug := jsonObject stringify (metaFor cfg slug nm user now)]> b)).
  { intros slug. unfold putJson, putObject, metaKey.
    destruct (putFails faults _); reflexivity. }
  destruct (projectExists faults b base) eqn:Eb.
  - destruct (whileTries_result b base 20 0 k eq_refl)
      as [(j & Hj & Hr & Hfree & Htaken)|[Hr Htaken]]; cbv zeta in Hr; rewrite Hr.
    + right. exists (candidate rand base k j).
      split; [right; split; [reflexivity|]; exists j; auto|].
      split; [exact Hfree|].
      assert (Hlt : (20 <=? 0 + j) = false) by (apply Nat.leb_gt; lia).
      rewrite Hlt. apply Hput.
    + left. split; [reflexivity|]. split; [exact Htaken|]. reflexivity.
  - right. exists base. split; [left; auto|]. split; [exact Eb|].
    change (20 <=? 0) with false. cbv iota. apply Hput.
Qed.

End CreateProps.

Section CreateClaims.

Context (rand : nat -> nat) (stringify : ProjectMeta -> str) (cfg : Config)
        (faults : Faults).

Lemma createHandler_created b name desiredSlug user now k meta :
  crBody (createHandler rand stringify cfg faults b name desiredSlug user now k).1 =
    Created meta ->
  exists nm slug,
    name = Some nm /\ JS.truthy nm = true /\ JS.truthy (baseSlug nm desiredSlug) = true /\
    ((projectExists faults b (baseSlug nm desiredSlug) = false /\
      slug = baseSlug nm desiredSlug) \/
     (projectExists faults b (baseSlug nm desiredSlug) = true /\
      exists j, j < 20 /\ slug = candidate rand (baseSlug nm desiredSlug) k j /\
                forall i, i < j ->
                  projectExists faults b (candidate rand (baseSlug nm desiredSlug) k i) = true)) /\
    projectExists faults b slug = false /\
    putFails faults (metaKey slug) = false /\
    meta = metaFor cfg slug nm user now /\
    createHandler rand stringify cfg faults b name desiredSlug user now k =
      ({| crStatus := 200; crBody := Created meta |},
       <[metaKey slug := jsonObject stringify meta]> b).
Proof.
  intros Hbody.
  destruct name as [nm|]; [|discriminate].
  destruct (JS.truthy nm) eqn:Hn;
    [|unfold createHandler in Hbody; rewrite Hn in Hbody; discriminate].
  destruct (JS.truthy (baseSlug nm desiredSlug)) eqn:Hs.
  2:{ unfold createHandler in Hbody. rewrite Hn in Hbody. simpl negb in Hbody.
      cbv iota in Hbody. fold (baseSlug nm desiredSlug) in Hbody.
      rewrite Hs in Hbody. discriminate. }
  destruct (createHandler_named rand stringify cfg faults b nm desiredSlug user now k Hn Hs)
    as [(_ & _ & Hr)|(slug & Hchoice & Hfree & Hr)]; cbv zeta in Hr;
    rewrite Hr in Hbody |- *; [discriminate|].
  destruct (putFails faults (metaKey slug)) eqn:Ef; [discriminate|].
  injection Hbody as <-.
  exists nm, slug. repeat split; auto.
Qed.

(** Creating a project writes one object, the record of the new slug, at a
    key whose HEAD had reported no object; unless that HEAD failed, no
    record was there, so an existing project is never overwritten.  Every
    other answer than the 200 leaves the bucket as it was. *)
Theorem create_writes_fresh_record (b : Bucket) (name desiredSlug : option str)
    (user : option User) (now : str) (k : nat) :
  let r := createHandler rand stringify cfg faults b name desiredSlug user now k in
  (crStatus r.1 <> 200 -> r.2 = b) /\
  (forall meta, crBody r.1 = Created meta ->
     crStatus r.1 = 200 /\
     r.2 = <[metaKey (meta_slug meta) := jsonObject stringify meta]> b /\
     projectExists faults b (meta_slug meta) = false /\
     (headFails faults (metaKey (meta_slug meta)) = false ->
      b !! metaKey (meta_slug meta) = None) /\
     (forall key, key <> metaKey (meta_slug meta) -> r.2 !! key = b !! key)).
Proof.
  cbv zeta. split.
  - intros Hstatus.
    destruct name as [nm|]; [|reflexivity].
    destruct (JS.truthy nm) eqn:Hn; [|unfold createHandler; rewrite Hn; reflexivity].
    destruct (JS.truthy (baseSlug nm desiredSlug)) eqn:Hs.
    2:{ unfold createHandler. rewrite Hn. simpl negb. cbv iota.
        fold (baseSlug nm desiredSlug). rewrite Hs. reflexivity. }
    destruct (createHandler_named rand stringify cfg faults b nm desiredSlug user now k Hn Hs)
      as [(_ & _ & Hr)|(slug & _ & _ & Hr)]; cbv zeta in Hr;
      rewrite Hr in Hstatus |- *; [reflexivity|].
    destruct (putFails faults (metaKey slug)); [reflexivity|].
    exfalso. apply Hstatus. reflexivity.
  - intros meta Hbody.
    destruct (createHandler_created b name desiredSlug user now k meta Hbody)
      as (nm & slug & _ & _ & _ & _ & Hfree & _ & Hmeta & Hr).
    assert (Hslug : meta_slug meta = slug) by (rewrite Hmeta; reflexivity).
    rewrite Hr, Hslug. cbn [fst snd crStatus].
    split; [reflexivity|]. split; [reflexivity|]. split; [exact Hfree|]. split.
    + intros Hhead. unfold projectExists, headObject in Hfree.
      fold (metaKey slug) in Hfree. rewrite Hhead in Hfree.
      destruct (b !! metaKey slug); [discriminate|reflexivity].
    + intros key Hkey. apply lookup_insert_ne. congruence.
Qed.


(** When the slug and all of its 20 candidates are taken the answer is the
    409 and nothing is written. *)
Theorem create_conflict (b : Bucket) (nm : str) (desiredSlug : option str)
    (user : option User) (now : str) (k : nat) :
  JS.truthy nm = true -> JS.truthy (baseSlug nm desiredSlug) = true ->
  projectExists faults b (baseSlug nm desiredSlug) = true ->
  (forall i, i < 20 ->
     projectExists faults b (candidate rand (baseSlug nm desiredSlug) k i) = true) ->
  createHandler rand stringify cfg faults b (Some nm) desiredSlug user now k =
  (createError 409 (lit "Could not find an available slug. Try another name."), b).
Proof.
  intros Hn Hs Hbase Hall.
  destruct (createHandler_named rand stringify cfg faults b nm desiredSlug user now k Hn Hs)
    as [(_ & _ & Hr)|(slug & Hchoice & Hfree & _)]; [exact Hr|].
  exfalso. destruct Hchoice as [[Hb _]|(_ & j & Hj & -> & _)]; [congruence|].
  rewrite (Hall j Hj) in Hfree. discriminate.
Qed.

End CreateClaims.

(** ** Created slugs and the other handlers *)

Lemma slugify_fixpoint (s : str) :
  Forall (fun c => isSlugChar c = true) s ->
  hd_error s <> Some "-"%char ->
  JS.includes (lit "--") s = false ->
  JS.endsWith (lit "-") s = false ->
  length s <= 63 ->
  slugify s = s.
Proof.
  intros Hchars Hhead Hdbl Hend Hlen.
  rewrite (slugify_pipeline s).
  assert (Hsp : Forall (fun c => JS.isSpace c = false) s).
  { eapply List.Forall_impl; [|exact Hchars]. apply slugChar_not_space. }
  assert (Htrim : JS.trim s = s).
  { unfold JS.trim. rewrite (dropWhile_id _ _ Hsp). apply dropWhileEnd_id, Hsp. }
  assert (Hlow : JS.toLowerCase s = s).
  { unfold JS.toLowerCase. clear -Hchars.
    induction Hchars as [|c t Hc _ IH]; [reflexivity|].
    simpl. rewrite IH. unfold JS.lowerChar.
    rewrite (slugChar_not_upper c Hc). reflexivity. }
  rewrite Htrim, Hlow.
  rewrite (replaceRuns_id (fun c => negb (isSlugChar c)) "-"%char s).
  2:{ eapply List.Forall_impl; [|exact Hchars]. intros c Hc. rewrite Hc. reflexivity. }
  rewrite (replaceRuns_no_double_id _ _ Hdbl).
  rewrite (stripEdges_no_head _ _ Hhead).
  change (lit "-") with ["-"%char] in Hend. rewrite Hend.
  unfold JS.sliceTo. apply firstn_all2. exact Hlen.
Qed.

Lemma endsWith_char_cons c a (t : str) :
  t <> [] -> JS.endsWith [c] (a :: t) = JS.endsWith [c] t.
Proof.
  intros Ht. rewrite !endsWith_char. simpl rev.
  destruct (rev t) as [|d r] eqn:Er; [|reflexivity].
  exfalso. apply Ht. rewrite <- (rev_involutive t), Er. reflexivity.
Qed.

(** No two [c] in a row arise where a string that does not end in [c]
    meets [c] followed by a string that does not start with [c]. *)
Lemma no_double_at_junction c (x y : str) :
  JS.includes [c; c] x = false -> JS.endsWith [c] x = false ->
  JS.includes [c; c] y = false -> hd_error y <> Some c ->
  JS.includes [c; c] (x ++ c :: y) = false.
Proof.
  intros Hx Hend Hy Hhd. induction x as [|a t IH].
  - cbn [app JS.includes]. rewrite Hy, orb_false_r.
    destruct y as [|d y']; cbn; rewrite Ascii.eqb_refl; [reflexivity|].
    destruct (Ascii.eqb c d) eqn:E; [|reflexivity].
    apply Ascii.eqb_eq in E. subst d. exfalso. apply Hhd. reflexivity.
  - cbn [JS.includes] in Hx. apply orb_false_iff in Hx as [Hhead Htail].
    change ((a :: t) ++ c :: y) with (a :: (t ++ c :: y)).
    cbn [JS.includes]. apply orb_false_iff. split.
    + destruct t as [|a' t'].
      * rewrite endsWith_char in Hend. simpl in Hend.
        cbn. rewrite Hend. reflexivity.
      * exact Hhead.
    + apply IH; [exact Htail|].
      destruct t as [|a' t']; [reflexivity|].
      rewrite <- Hend. symmetry. apply endsWith_char_cons. discriminate.
Qed.

Lemma includes_without_char c (s : str) :
  Forall (fun x => x <> c) s -> JS.includes [c; c] s = false.
Proof.
  induction 1 as [|a t Ha _ IH]; [reflexivity|].
  cbn [JS.includes JS.startsWith]. rewrite IH, orb_false_r.
  apply Ascii.eqb_neq in Ha. rewrite Ascii.eqb_sym, Ha. reflexivity.
Qed.

Lemma toLowerCase_slug (s : str) :
  Forall (fun c => isSlugChar c = true) s -> JS.toLowerCase s = s.
Proof.
  intros Hchars. unfold JS.toLowerCase.
  induction Hchars as [|c t Hc _ IH]; [reflexivity|].
  simpl. rewrite IH. unfold JS.lowerChar.
  rewrite (slugChar_not_upper c Hc). reflexivity.
Qed.

Section CreateUse.

Context (rand : nat -> nat) (stringify : ProjectMeta -> str) (cfg : Config)
        (faults : Faults).

(** The slug of a created project goes through [slugify] unchanged, as the
    upload handler and the host resolution need it to, exactly when it is
    at most 63 characters long and the slug it was made from does not end
    in a hyphen. *)
Theorem created_slug_stable (b : Bucket) (nm : str) (desiredSlug : option str)
    (user : option User) (now : str) (k : nat) (meta : ProjectMeta) :
  crBody (createHandler rand stringify cfg faults b (Some nm) desiredSlug user now k).1 =
    Created meta ->
  (slugify (meta_slug meta) = meta_slug meta <->
   length (meta_slug meta) <= 63 /\
   JS.endsWith (lit "-") (baseSlug nm desiredSlug) = false).
Proof.
  intros Hbody.
  destruct (createHandler_created rand stringify cfg faults b (Some nm) desiredSlug
              user now k meta Hbody)
    as (nm' & slug & Hname & _ & Hs & Hchoice & _ & _ & Hmeta & _).
  injection Hname as <-.
  assert (Hslug : meta_slug meta = slug) by (rewrite Hmeta; reflexivity).
  rewrite Hslug. clear Hmeta Hslug Hbody.
  destruct (slugify_shape (JS.orElse desiredSlug nm)) as (Hchars & _ & Hlen & Hhead & Hdbl).
  fold (baseSlug nm desiredSlug) in Hchars, Hlen, Hhead, Hdbl.
  set (base := baseSlug nm desiredSlug) in *.
  destruct Hchoice as [[_ ->]|(_ & j & _ & -> & _)].
  - pose proof (slugify_again (JS.orElse desiredSlug nm)) as Htwice.
    fold (baseSlug nm desiredSlug) in Htwice. fold base in Htwice.
    split.
    + intros Hfix. split; [exact Hlen|].
      destruct (JS.endsWith (lit "-") base) eqn:Eend; [|reflexivity].
      exfalso. rewrite Hfix in Htwice.
      apply (f_equal (@length ascii)) in Htwice.
      apply truthy_spec in Hs.
      destruct (@exists_last _ base Hs) as (l & a & Hl).
      rewrite Hl, removelast_last, length_app in Htwice. simpl in Htwice. lia.
    + intros [_ Hend]. rewrite Hend in Htwice. exact Htwice.
  - unfold candidate. set (ddd := randomSuffix rand (k + 3 * j) 3).
    assert (Hd : Forall (fun c => isSlugChar c = true /\ c <> "-"%char) ddd)
      by apply randomSuffix_chars.
    assert (Hdlen : length ddd = 3) by apply randomSuffix_length.
    clearbody ddd.
    split.
    + intros Hfix.
      destruct (slugify_shape (base ++ lit "-" ++ ddd)) as (_ & _ & Hl & _ & Hno).
      rewrite Hfix in Hl, Hno. split; [exact Hl|].
      destruct (JS.endsWith (lit "-") base) eqn:Eend; [|reflexivity].
      exfalso. apply endsWith_spec in Eend as [a Ha].
      assert (Hin : JS.includes (lit "--") (base ++ lit "-" ++ ddd) = true).
      { apply includes_spec. exists a, ddd. rewrite Ha, <- !app_assoc. reflexivity. }
      congruence.
    + intros [Hl Hend]. apply slugify_fixpoint.
      * apply Forall_app. split; [exact Hchars|].
        apply Forall_app. split; [repeat constructor|].
        eapply List.Forall_impl; [|exact Hd]. simpl. tauto.
      * apply truthy_spec in Hs. destruct base; [congruence|exact Hhead].
      * change (base ++ lit "-" ++ ddd) with (base ++ "-"%char :: ddd).
        apply no_double_at_junction; [exact Hdbl|exact Hend| |].
        -- apply includes_without_char.
           eapply List.Forall_impl; [|exact Hd]. simpl. tauto.
        -- destruct ddd as [|d1 t]; [discriminate|].
           inversion Hd as [|? ? [_ H1] _]; subst. simpl. congruence.
      * change (lit "-") with ["-"%char]. rewrite endsWith_char.
        change (base ++ ["-"%char] ++ ddd) with (base ++ "-"%char :: ddd).
        rewrite rev_app_distr.
        destruct ddd as [|d1 [|d2 [|d3 [|? ?]]]]; try discriminate.
        inversion Hd as [|? ? _ Hd']; subst. inversion Hd' as [|? ? _ Hd'']; subst.
        inversion Hd'' as [|? ? [_ H3] _]; subst.
        cbn [rev app]. rewrite Ascii.eqb_sym. apply Ascii.eqb_neq. exact H3.
      * exact Hl.
Qed.

End CreateUse.

Section CreateThen.

Context (rand : nat -> nat) (stringify : ProjectMeta -> str) (cfg : Config)
        (faults : Faults).

(** A created project can be uploaded to: when the HEAD of its record does
    not fail and its slug goes through [slugify] unchanged, the upload
    handler finds the project, and an archive of at most 2000 entries none
    of whose puts fails is answered with the 200. *)
Theorem create_then_upload (mime_lookup : str -> option str) (b : Bucket)
    (name desiredSlug : option str) (user : option User) (now : str) (k : nat)
    (meta : ProjectMeta) (files : list Entry) :
  let r := createHandler rand stringify cfg faults b name desiredSlug user now k in
  crBody r.1 = Created meta ->
  headFails faults (metaKey (meta_slug meta)) = false ->
  slugify (meta_slug meta) = meta_slug meta ->
  length files <= 2000 ->
  (forall e, In e files -> putFails faults (keyOf (meta_slug meta) e) = false) ->
  projectExists faults r.2 (meta_slug meta) = true /\
  upStatus (uploadHandler mime_lookup cfg faults r.2 (meta_slug meta)
              (Some (Readable files))).1.1 = 200.
Proof.
  cbv zeta. intros Hbody Hhead Hfix Hlen Hputs.
  destruct (createHandler_created rand stringify cfg faults b name desiredSlug
              user now k meta Hbody)
    as (nm & slug & _ & _ & Hs & Hchoice & _ & _ & Hmeta & Hr).
  assert (Hslug : meta_slug meta = slug) by (rewrite Hmeta; reflexivity).
  assert (Hne : slug <> []).
  { apply truthy_spec in Hs.
    destruct Hchoice as [[_ ->]|(_ & j & _ & -> & _)]; [exact Hs|].
    unfold candidate. destruct (baseSlug nm desiredSlug); discriminate. }
  clear Hchoice Hs.
  rewrite Hr, Hslug in *. cbn [fst snd].
  assert (Hex : projectExists faults (<[metaKey slug := jsonObject stringify meta]> b) slug
                = true).
  { unfold projectExists, headObject. fold (metaKey slug).
    rewrite Hhead, lookup_insert_eq. reflexivity. }
  split; [exact Hex|].
  assert (Ht : JS.truthy (slugify slug) = true).
  { rewrite Hfix. apply truthy_spec. exact Hne. }
  rewrite uploadHandler_loop; [|exact Ht|rewrite Hfix; exact Hex|exact Hlen].
  cbv zeta. cbn [fst].
  destruct (forEntries_completes mime_lookup faults (slugify slug) files
              (startOf (<[metaKey slug := jsonObject stringify meta]> b)))
    as [st ->]; [rewrite Hfix; exact Hputs|reflexivity].
Qed.

End CreateThen.

Section CreateUrl.

Context (rand : nat -> nat) (stringify : ProjectMeta -> str) (cfg : Config)
        (faults : Faults).

(** The hosting URL of a created project leads back to it: when the slug
    goes through [slugify] unchanged, the base domain has no colon and the
    host of the URL is not a main host, [getProjectFromHost] maps that host
    to the slug. *)
Theorem create_url_resolves (b : Bucket) (name desiredSlug : option str)
    (user : option User) (now : str) (k : nat) (meta : ProjectMeta) :
  crBody (createHandler rand stringify cfg faults b name desiredSlug user now k).1 =
    Created meta ->
  slugify (meta_slug meta) = meta_slug meta ->
  ~ In ":"%char (HOSTING_BASE_DOMAIN cfg) ->
  ~ In (meta_slug meta ++ lit "." ++ JS.toLowerCase (HOSTING_BASE_DOMAIN cfg))
       (MAIN_HOSTS cfg) ->
  meta_hostingUrl meta =
    lit "https://" ++ meta_slug meta ++ lit "." ++ HOSTING_BASE_DOMAIN cfg /\
  getProjectFromHost cfg (meta_slug meta ++ lit "." ++ HOSTING_BASE_DOMAIN cfg) =
    Some (meta_slug meta).
Proof.
  intros Hbody Hfix Hcolon Hmain.
  destruct (createHandler_created rand stringify cfg faults b name desiredSlug
              user now k meta Hbody)
    as (nm & slug & _ & _ & _ & _ & _ & _ & Hmeta & _).
  assert (Hslug : meta_slug meta = slug) by (rewrite Hmeta; reflexivity).
  split; [rewrite Hmeta; reflexivity|].
  rewrite Hslug in *. clear Hmeta Hslug Hbody.
  assert (Hchars : Forall (fun c => isSlugChar c = true) slug).
  { rewrite <- Hfix. apply (slugify_shape slug). }
  assert (Hnorm : normHost (slug ++ lit "." ++ HOSTING_BASE_DOMAIN cfg) =
                  slug ++ lit "." ++ JS.toLowerCase (HOSTING_BASE_DOMAIN cfg)).
  { unfold normHost. rewrite split_no_sep.
    - unfold JS.toLowerCase. simpl hd. rewrite !map_app.
      fold (JS.toLowerCase slug). rewrite (toLowerCase_slug slug Hchars). reflexivity.
    - rewrite !in_app_iff. intros [H|[H|H]].
      + rewrite List.Forall_forall in Hchars. apply Hchars in H. discriminate.
      + destruct H as [H|[]]. discriminate.
      + exact (Hcolon H). }
  rewrite <- Hfix at 2. apply getProjectFromHost_label.
  - exact Hnorm.
  - intros H. rewrite List.Forall_forall in Hchars. apply Hchars in H. discriminate.
  - rewrite Hnorm. exact Hmain.
Qed.

End CreateUrl.

Lemma create_writes_fresh_record_witness :
  let r := createHandler sevens sampleStringify defaultConfig noFaults demoBucket
             (Some (lit "Demo")) None None (lit "2026-01-01T00:00:00.000Z") 0 in
  crStatus r.1 = 200 /\ demoBucket !! metaKey (lit "demo-777") = None /\
  r.2 !! metaKey (lit "demo") = demoBucket !! metaKey (lit "demo").
Proof.
  cbv zeta.
  destruct (create_writes_fresh_record sevens sampleStringify defaultConfig noFaults
              demoBucket (Some (lit "Demo")) None None (lit "2026-01-01T00:00:00.000Z") 0)
    as [_ Hcreated].
  destruct (Hcreated (metaFor defaultConfig (lit "demo-777") (lit "Demo") None
                        (lit "2026-01-01T00:00:00.000Z")))
    as (Hstatus & _ & _ & Hnone & Hother).
  - vm_compute. reflexivity.
  - split; [exact Hstatus|]. split.
    + apply Hnone. reflexivity.
    + apply Hother. vm_compute. discriminate.
Defined.


Lemma create_conflict_witness :
  createHandler sevens sampleStringify defaultConfig noFaults crowdedBucket
    (Some (lit "Demo")) None None (lit "2026-01-01T00:00:00.000Z") 0 =
  (createError 409 (lit "Could not find an available slug. Try another name."),
   crowdedBucket).
Proof.
  apply create_conflict.
  - reflexivity.
  - vm_compute. reflexivity.
  - vm_compute. reflexivity.
  - intros i _. unfold candidate. cbn [randomSuffix sevens]. vm_compute. reflexivity.
Defined.

Lemma created_slug_stable_witness :
  slugify (lit "demo-777") = lit "demo-777".
Proof.
  refine (proj2 (created_slug_stable sevens sampleStringify defaultConfig noFaults demoBucket
                   (lit "Demo") None None (lit "2026-01-01T00:00:00.000Z") 0
                   (metaFor defaultConfig (lit "demo-777") (lit "Demo") None
                      (lit "2026-01-01T00:00:00.000Z")) _) _).
  - vm_compute. reflexivity.
  - split; [simpl; lia|vm_compute; reflexivity].
Defined.

Lemma create_then_upload_witness :
  let r := createHandler sevens sampleStringify defaultConfig noFaults demoBucket
             (Some (lit "Demo")) None None (lit "2026-01-01T00:00:00.000Z") 0 in
  upStatus (uploadHandler sampleMime defaultConfig noFaults r.2 (lit "demo-777")
              (Some (Readable demoArchive))).1.1 = 200.
Proof.
  cbv zeta.
  refine (proj2 (create_then_upload sevens sampleStringify defaultConfig noFaults sampleMime
                   demoBucket (Some (lit "Demo")) None None
                   (lit "2026-01-01T00:00:00.000Z") 0
                   (metaFor defaultConfig (lit "demo-777") (lit "Demo") None
                      (lit "2026-01-01T00:00:00.000Z")) demoArchive _ _ _ _ _)).
  - vm_compute. reflexivity.
  - reflexivity.
  - vm_compute. reflexivity.
  - simpl. lia.
  - intros e _. reflexivity.
Defined.

Lemma create_url_resolves_witness :
  getProjectFromHost defaultConfig (lit "demo-777.quick-stage.app") = Some (lit "demo-777").
Proof.
  refine (proj2 (create_url_resolves sevens sampleStringify defaultConfig noFaults demoBucket
                   (Some (lit "Demo")) None None (lit "2026-01-01T00:00:00.000Z") 0
                   (metaFor defaultConfig (lit "demo-777") (lit "Demo") None
                      (lit "2026-01-01T00:00:00.000Z")) _ _ _ _)).
  - vm_compute. reflexivity.
  - vm_compute. reflexivity.
  - vm_compute. intuition discriminate.
  - vm_compute. intuition discriminate.
Defined.

(** A slug of 63 characters that is taken gets a candidate of 67 characters:
    the project is created, but the upload handler cuts the slug of its
    route to 63 characters and so works on the project that was there
    before, and never on the new one. *)
Example create_long_slug_unreachable :
  let r := createHandler sevens sampleStringify defaultConfig noFaults longTaken
             (Some longName) None None (lit "2026-01-01T00:00:00.000Z") 0 in
  crBody r.1 = Created (metaFor defaultConfig (longName ++ lit "-777") longName None
                          (lit "2026-01-01T00:00:00.000Z")) /\
  length (longName ++ lit "-777") = 67 /\
  slugify (longName ++ lit "-777") = longName.
Proof. vm_compute. repeat split; reflexivity. Qed.

(** ** Authorization *)

Lemma dropWhile_length (p : ascii -> bool) (s : str) :
  length (JS.dropWhile p s) <= length s.
Proof.
  induction s as [|c t IH]; [reflexivity|].
  simpl. destruct (p c); simpl; lia.
Qed.

(** A header made of the word [Bearer] in any mix of cases, a space and a
    token is matched, and the group is the token without its leading white
    space, provided that is not empty and has no line terminator; trimmed,
    it is the trimmed token. *)
Theorem matchBearer_token (scheme token : str) :
  JS.toLowerCase scheme = lit "bearer" ->
  JS.dropWhile JS.isSpace token <> [] ->
  existsb isLineTerminator (JS.dropWhile JS.isSpace token) = false ->
  matchBearer (scheme ++ lit " " ++ token) = Some (JS.dropWhile JS.isSpace token) /\
  JS.trim (JS.dropWhile JS.isSpace token) = JS.trim token.
Proof.
  intros Hscheme Hne Hlt.
  assert (Hlen : length scheme = 6).
  { apply (f_equal (@length ascii)) in Hscheme.
    unfold JS.toLowerCase in Hscheme. rewrite length_map in Hscheme. exact Hscheme. }
  split.
  - unfold matchBearer.
    assert (Hfirst : firstn 6 (scheme ++ lit " " ++ token) = scheme).
    { rewrite <- Hlen, <- (Nat.add_0_r (length scheme)), firstn_app_2.
      simpl. apply app_nil_r. }
    assert (Hskip : skipn 6 (scheme ++ lit " " ++ token) = lit " " ++ token).
    { rewrite <- Hlen. rewrite skipn_app, Nat.sub_diag, skipn_all. reflexivity. }
    rewrite Hfirst, Hskip, Hscheme.
    replace (JS.eqb (lit "bearer") (lit "bearer")) with true by reflexivity.
    cbv zeta. change (JS.dropWhile JS.isSpace (lit " " ++ token))
                with (JS.dropWhile JS.isSpace token).
    assert (Hneq : JS.eqb (JS.dropWhile JS.isSpace token) (lit " " ++ token) = false).
    { apply eqb_false_str. intros Heq. apply (f_equal (@length ascii)) in Heq.
      pose proof (dropWhile_length JS.isSpace token). simpl in Heq. lia. }
    rewrite Hneq, Hlt.
    destruct (JS.dropWhile JS.isSpace token); [congruence|reflexivity].
  - unfold JS.trim.
    rewrite (dropWhile_id_head JS.isSpace (JS.dropWhile JS.isSpace token)); [reflexivity|].
    apply dropWhile_head.
Qed.

Lemma matchBearer_token_witness :
  matchBearer (lit "bEARER   abc.def ") = Some (lit "abc.def ").
Proof.
  refine (proj1 (matchBearer_token (lit "bEARER") (lit "  abc.def ") _ _ _)).
  - vm_compute. reflexivity.
  - vm_compute. discriminate.
  - vm_compute. reflexivity.
Defined.

Section AuthProps.

Context (OAUTH_ME_URL : option str) (fetchMe : str -> str -> MeReply).

(** [requireAuth] fails closed: it calls [next()] with a user exactly when
    [OAUTH_ME_URL] is set, the [Authorization] header has the Bearer form,
    and the me endpoint, asked with the trimmed token, answers [ok] with a
    JSON value that has a non-empty [id] or [email]; that value is the
    user.  In every other case the answer is the 401; no request is sent
    when the URL is missing or the header does not match. *)
Theorem requireAuth_fails_closed (authorization : option str) (user : User) :
  ((requireAuth OAUTH_ME_URL fetchMe authorization).1 = Next user <->
   exists meUrl m1,
     OAUTH_ME_URL = Some meUrl /\ meUrl <> [] /\
     matchBearer (JS.orElse authorization []) = Some m1 /\
     fetchMe meUrl (lit "Bearer " ++ JS.trim m1) = Replied true (JsonValue (Some user)) /\
     (JS.truthy (JS.orElse (user_id user) []) = true \/
      JS.truthy (JS.orElse (user_email user) []) = true)) /\
  (OAUTH_ME_URL = None \/ OAUTH_ME_URL = Some [] \/
   matchBearer (JS.orElse authorization []) = None ->
   requireAuth OAUTH_ME_URL fetchMe authorization = (Unauthorized, [])).
Proof.
  unfold requireAuth, validateToken. split.
  - split.
    + destruct OAUTH_ME_URL as [meUrl|]; [|discriminate].
      destruct (JS.truthy meUrl) eqn:Hu; simpl negb; cbv iota; [|discriminate].
      destruct (matchBearer (JS.orElse authorization [])) as [m1|]; [|discriminate].
      destruct (fetchMe meUrl (lit "Bearer " ++ JS.trim m1)) as [|ok body] eqn:Hf;
        [discriminate|].
      destruct ok; simpl negb; cbv iota; [|discriminate].
      destruct body as [|[data|]]; [discriminate| |discriminate].
      destruct (JS.truthy (JS.orElse (user_id data) [])) eqn:Hid;
        destruct (JS.truthy (JS.orElse (user_email data) [])) eqn:Hem;
        cbn [negb andb fst]; intros [= <-]; try discriminate;
        exists meUrl, m1; (split; [reflexivity|]); (split; [apply truthy_spec, Hu|]);
        (split; [reflexivity|]); (split; [exact Hf|]); auto.
    + intros (meUrl & m1 & -> & Hu & -> & Hf & Hprops).
      apply truthy_spec in Hu. rewrite Hu. simpl negb. cbv iota.
      rewrite Hf. simpl negb. cbv iota.
      destruct (JS.truthy (JS.orElse (user_id user) [])),
               (JS.truthy (JS.orElse (user_email user) [])); simpl; try reflexivity.
      destruct Hprops; discriminate.
  - intros [-> | [-> | ->]]; [reflexivity|reflexivity|].
    destruct OAUTH_ME_URL as [meUrl|]; [|reflexivity].
    destruct (negb (JS.truthy meUrl)); reflexivity.
Qed.

End AuthProps.

Lemma requireAuth_fails_closed_witness :
  (requireAuth (Some (lit "https://quick-stage.app/api/auth/me"))
     (fun _ header =>
        if JS.eqb header (lit "Bearer s3cret")
        then Replied true (JsonValue (Some {| user_id := Some (lit "u1");
                                              user_email := None |}))
        else Replied false NotJson)
     (Some (lit "Bearer  s3cret "))).1 =
  Next {| user_id := Some (lit "u1"); user_email := None |}.
Proof.
  apply (proj1 (requireAuth_fails_closed _ _ _ _)).
  exists (lit "https://quick-stage.app/api/auth/me"), (lit "s3cret ").
  split; [reflexivity|]. split; [discriminate|].
  split; [vm_compute; reflexivity|]. split; [vm_compute; reflexivity|].
  left. reflexivity.
Defined.

(** ** The DNS check and the content type *)

Section DnsProps.

Context (doh : str -> str -> DohReply) (cfg : Config).

(** The DNS check answers 400 without any lookup exactly when the domain,
    trimmed, has fewer than 3 characters; otherwise it looks up CNAME, A and
    AAAA of the trimmed, lower-cased domain in this order, stops at the
    first lookup that fails with the 500, and answers with the three
    record lists when all succeed. *)
Theorem verify_lookups (query : option str) :
  let domain := normDomain query in
  let r := verifyHandler doh cfg query in
  (length domain < 3 <-> r = (VerifyError 400 (lit "domain is required"), [])) /\
  (exists n, r.2 = firstn n (allLookups domain)) /\
  (forall d cname a aaaa hint,
     r.1 = VerifyOk d cname a aaaa hint ->
     d = domain /\ r.2 = allLookups domain /\
     dohLookup doh domain (lit "CNAME") = inr cname /\
     dohLookup doh domain (lit "A") = inr a /\
     dohLookup doh domain (lit "AAAA") = inr aaaa) /\
  (3 <= length domain ->
   (exists e, dohLookup doh domain (lit "CNAME") = inl e) \/
   (exists e, dohLookup doh domain (lit "A") = inl e) \/
   (exists e, dohLookup doh domain (lit "AAAA") = inl e) ->
   r.1 = VerifyError 500 (lit "DNS lookup failed")).
Proof.
  cbv zeta. unfold verifyHandler. fold (normDomain query).
  set (domain := normDomain query).
  assert (Hguard : negb (JS.truthy domain) || (length domain <? 3) = true <->
                   length domain < 3).
  { rewrite orb_true_iff, Nat.ltb_lt, negb_true_iff. split.
    - intros [H|H]; [|exact H]. destruct domain; [simpl; lia|discriminate].
    - auto. }
  destruct (negb (JS.truthy domain) || (length domain <? 3)) eqn:Eg.
  - assert (Hshort : length domain < 3) by (apply Hguard; reflexivity).
    split; [tauto|]. split; [exists 0; reflexivity|].
    split; [intros; discriminate|]. intros Hlong. lia.
  - assert (Hlong : ~ length domain < 3).
    { intros H. apply Hguard in H. discriminate. }
    destruct (dohLookup doh domain (lit "CNAME")) as [e1|cname] eqn:E1.
    { split; [split; [tauto|discriminate]|]. split; [exists 1; reflexivity|].
      split; [intros; discriminate|reflexivity]. }
    destruct (dohLookup doh domain (lit "A")) as [e2|a] eqn:E2.
    { split; [split; [tauto|discriminate]|]. split; [exists 2; reflexivity|].
      split; [intros; discriminate|reflexivity]. }
    destruct (dohLookup doh domain (lit "AAAA")) as [e3|aaaa] eqn:E3.
    { split; [split; [tauto|discriminate]|]. split; [exists 3; reflexivity|].
      split; [intros; discriminate|reflexivity]. }
    split; [split; [tauto|discriminate]|]. split; [exists 3; reflexivity|].
    split.
    + intros d c a' a4 hint [= <- <- <- <- _]. auto.
    + intros _ [[e He]|[[e He]|[e He]]]; discriminate.
Qed.

End DnsProps.

Lemma verify_lookups_witness :
  verifyHandler (fun _ _ => DohReplied true (DohJson None)) defaultConfig
    (Some (lit "  Example.COM ")) =
  (VerifyOk (lit "example.com") [] [] []
     (lit "For a custom domain, set CNAME example.com -> <project>.quick-stage.app"),
   allLookups (lit "example.com")) /\
  verifyHandler (fun _ _ => DohRejected) defaultConfig (Some (lit " a ")) =
  (VerifyError 400 (lit "domain is required"), []).
Proof.
  split; [vm_compute; reflexivity|].
  apply (proj1 (verify_lookups (fun _ _ => DohRejected) defaultConfig (Some (lit " a ")))).
  vm_compute. lia.
Defined.

(** [lookupContentType] gives nothing exactly when [mime.lookup] gives
    nothing or an empty type; otherwise it gives that type, with
    [; charset=utf-8] added for the five text types and unchanged for every
    other type; what it gives is never empty. *)
Theorem lookupContentType_charset (mime_lookup : str -> option str) (p : str) :
  (lookupContentType mime_lookup p = None <->
   mime_lookup p = None \/ mime_lookup p = Some []) /\
  (forall ct, mime_lookup p = Some ct -> ct <> [] ->
     lookupContentType mime_lookup p =
       Some (if JS.arrayIncludes charsetTypes ct then ct ++ lit "; charset=utf-8" else ct)) /\
  (forall ct, lookupContentType mime_lookup p = Some ct -> ct <> []).
Proof.
  split; [|split].
  - unfold lookupContentType. destruct (mime_lookup p) as [m|]; [|tauto].
    destruct m as [|c m']; [simpl; split; auto|].
    cbn [JS.truthy negb]. cbv iota. split.
    + repeat match goal with
             | |- context [if JS.eqb ?a ?b then _ else _] => destruct (JS.eqb a b)
             end; discriminate.
    + intros [H|H]; discriminate.
  - intros ct Hm Hne. unfold lookupContentType. rewrite Hm.
    apply truthy_spec in Hne. rewrite Hne. cbn [negb]. cbv iota.
    unfold JS.arrayIncludes, charsetTypes. cbn [existsb].
    destruct (JS.eqb ct (lit "text/html")) eqn:E1;
      [apply eqb_spec_str in E1; subst ct; reflexivity|].
    destruct (JS.eqb ct (lit "text/css")) eqn:E2;
      [apply eqb_spec_str in E2; subst ct; reflexivity|].
    destruct (JS.eqb ct (lit "application/javascript")) eqn:E3;
      [apply eqb_spec_str in E3; subst ct; reflexivity|].
    destruct (JS.eqb ct (lit "text/plain")) eqn:E4;
      [apply eqb_spec_str in E4; subst ct; reflexivity|].
    destruct (JS.eqb ct (lit "application/json")) eqn:E5;
      [apply eqb_spec_str in E5; subst ct; reflexivity|].
    reflexivity.
  - intros ct H. apply truthy_spec. eapply lookupContentType_truthy. exact H.
Qed.

Lemma lookupContentType_charset_witness :
  lookupContentType sampleMime (lit "site/App.JS") =
  Some (lit "application/javascript; charset=utf-8").
Proof.
  refine (proj1 (proj2 (lookupContentType_charset sampleMime (lit "site/App.JS")))
            (lit "application/javascript") _ _).
  - vm_compute. reflexivity.
  - discriminate.
Defined.
